(** * Music hub client: session gate, search, library and playback

    A shallow embedding of the stateful core of [App.tsx] and of
    [services/dbService.ts].

    - React state ([useState] cells) is the record [AppState]; every
      [setX] call is a command [Cmd] applied to it.
    - An [async] handler is a value of [Proc]: a tree of synchronous
      commands and of suspension points ([await]), with exceptions.
    - The remote side (the persistence tables and the catalog endpoint) is
      the record [Remote]; [serve] answers one request against it.
    - Numbers of the audio element are exact rationals ([Q]); [NaN] and
      infinities are not modelled.  A string is a sequence of code units and
      [String.length] counts them. *)

From Stdlib Require Import List String Ascii Bool Arith ZArith QArith Lia Lqa.
From Stdlib Require Import Qround DecimalString.
Import ListNotations.
Close Scope Q_scope.
Open Scope string_scope.
Open Scope list_scope.

Set Implicit Arguments.

(** ** Data model ([types.ts]) *)

Record Song := mkSong {
  url : string;
  title : string;
  artist : string;
  thumbnail : option string;   (* API response key *)
  cover : option string        (* internal key *)
}.

(** [id: number | string] *)
Inductive Ident :=
| IdNum (n : nat)
| IdStr (s : string).

Definition Ident_eqb (a b : Ident) : bool :=
  match a, b with
  | IdNum n, IdNum m => Nat.eqb n m
  | IdStr s, IdStr t => String.eqb s t
  | _, _ => false
  end.

Record Playlist := mkPlaylist {
  id : Ident;
  name : string;
  image : string;
  songs : list Song
}.

Record Profile := mkProfile {
  p_id : string;
  username : string;
  full_name : string;
  avatar_url : option string;
  phone : string
}.

Inductive ViewState := home | search | library | playlist_detail.

(** The identity provider's user object, as far as the client reads it. *)
Record User := mkUser {
  u_id : string;
  email : option string;
  email_confirmed_at : option string;
  meta_full_name : option string;
  meta_avatar_url : option string
}.

(** JavaScript truthiness of an optional string: [undefined], [null] and
    the empty string are falsy. *)
Definition truthy (o : option string) : bool :=
  match o with
  | Some s => negb (String.eqb s "")
  | None => false
  end.

(** [a || b] on optional strings with a string default. *)
Definition or_else (o : option string) (d : string) : string :=
  match o with
  | Some s => if String.eqb s "" then d else s
  | None => d
  end.

(** ** Session states

    The client keeps no session enum: the state is read off [user]. *)

Inductive Session := Anonymous | AuthenticatedUnverified | AuthenticatedVerified.

Definition sessionOf (u : option User) : Session :=
  match u with
  | None => Anonymous
  | Some usr =>
      if truthy (email_confirmed_at usr) then AuthenticatedVerified
      else AuthenticatedUnverified
  end.

(** ** React state of [App] *)

Record AppState := mkApp {
  user : option User;
  profile : option Profile;
  authModalOpen : bool;
  view : ViewState;
  likedSongs : list Song;
  playlists : list Playlist;
  currentPlaylistDetail : option Playlist;
  searchQuery : string;
  searchResults : list Song;
  isSearching : bool;
  currentSong : option Song;
  isPlaying : bool;
  playlistQueue : list Song;
  progress : Q;
  currentTime : Q;
  duration : Q
}.

(** The [<audio>] element behind [audioRef]: the values the handlers read
    and the value they last assigned to [currentTime]. *)
Record Audio := mkAudio {
  a_currentTime : Q;
  a_duration : Q;
  a_paused : bool
}.

(** Everything on the client side: React state, the audio element and
    what was shown to the user or logged. *)
Record Client := mkClient {
  app : AppState;
  audio : option Audio;          (* [audioRef.current] *)
  alerts : list string;          (* [alert(...)] calls, oldest first *)
  console : list string          (* [console.error(...)] calls, oldest first *)
}.

Definition initialApp : AppState :=
  {| user := None; profile := None; authModalOpen := false; view := home;
     likedSongs := []; playlists := []; currentPlaylistDetail := None;
     searchQuery := ""; searchResults := []; isSearching := false;
     currentSong := None; isPlaying := false; playlistQueue := [];
     progress := 0; currentTime := 0; duration := 0 |}.

(** ** Commands: the synchronous effects of a handler *)

Inductive Cmd :=
| setUser (u : option User)
| setProfile (p : option Profile)
| setAuthModalOpen (b : bool)
| setView (v : ViewState)
| setLikedSongs (f : list Song -> list Song)       (* functional update *)
| setPlaylists (f : list Playlist -> list Playlist)
| setCurrentPlaylistDetail (p : option Playlist)
| setSearchQuery (s : string)
| setSearchResults (l : list Song)
| setIsSearching (b : bool)
| setCurrentSong (s : option Song)
| setIsPlaying (b : bool)
| setPlaylistQueue (q : list Song)
| setProgress (p : Q)
| setCurrentTime (t : Q)
| setDuration (d : Q)
| audioSetCurrentTime (t : Q)
| audioPause
| audioPlay
| alert (msg : string)
| consoleError (msg : string).

Definition updApp (f : AppState -> AppState) (c : Client) : Client :=
  {| app := f (app c); audio := audio c; alerts := alerts c; console := console c |}.

Definition updAudio (f : Audio -> Audio) (c : Client) : Client :=
  {| app := app c; audio := option_map f (audio c);
     alerts := alerts c; console := console c |}.

Definition exec (c : Cmd) (cl : Client) : Client :=
  match c with
  | setUser u => updApp (fun s =>
      mkApp u (profile s) (authModalOpen s) (view s) (likedSongs s) (playlists s)
        (currentPlaylistDetail s) (searchQuery s) (searchResults s) (isSearching s)
        (currentSong s) (isPlaying s) (playlistQueue s) (progress s) (currentTime s)
        (duration s)) cl
  | setProfile p => updApp (fun s =>
      mkApp (user s) p (authModalOpen s) (view s) (likedSongs s) (playlists s)
        (currentPlaylistDetail s) (searchQuery s) (searchResults s) (isSearching s)
        (currentSong s) (isPlaying s) (playlistQueue s) (progress s) (currentTime s)
        (duration s)) cl
  | setAuthModalOpen b => updApp (fun s =>
      mkApp (user s) (profile s) b (view s) (likedSongs s) (playlists s)
        (currentPlaylistDetail s) (searchQuery s) (searchResults s) (isSearching s)
        (currentSong s) (isPlaying s) (playlistQueue s) (progress s) (currentTime s)
        (duration s)) cl
  | setView v => updApp (fun s =>
      mkApp (user s) (profile s) (authModalOpen s) v (likedSongs s) (playlists s)
        (currentPlaylistDetail s) (searchQuery s) (searchResults s) (isSearching s)
        (currentSong s) (isPlaying s) (playlistQueue s) (progress s) (currentTime s)
        (duration s)) cl
  | setLikedSongs f => updApp (fun s =>
      mkApp (user s) (profile s) (authModalOpen s) (view s) (f (likedSongs s))
        (playlists s) (currentPlaylistDetail s) (searchQuery s) (searchResults s)
        (isSearching s) (currentSong s) (isPlaying s) (playlistQueue s) (progress s)
        (currentTime s) (duration s)) cl
  | setPlaylists f => updApp (fun s =>
      mkApp (user s) (profile s) (authModalOpen s) (view s) (likedSongs s)
        (f (playlists s)) (currentPlaylistDetail s) (searchQuery s) (searchResults s)
        (isSearching s) (currentSong s) (isPlaying s) (playlistQueue s) (progress s)
        (currentTime s) (duration s)) cl
  | setCurrentPlaylistDetail p => updApp (fun s =>
      mkApp (user s) (profile s) (authModalOpen s) (view s) (likedSongs s) (playlists s)
        p (searchQuery s) (searchResults s) (isSearching s)
        (currentSong s) (isPlaying s) (playlistQueue s) (progress s) (currentTime s)
        (duration s)) cl
  | setSearchQuery q => updApp (fun s =>
      mkApp (user s) (profile s) (authModalOpen s) (view s) (likedSongs s) (playlists s)
        (currentPlaylistDetail s) q (searchResults s) (isSearching s)
        (currentSong s) (isPlaying s) (playlistQueue s) (progress s) (currentTime s)
        (duration s)) cl
  | setSearchResults l => updApp (fun s =>
      mkApp (user s) (profile s) (authModalOpen s) (view s) (likedSongs s) (playlists s)
        (currentPlaylistDetail s) (searchQuery s) l (isSearching s)
        (currentSong s) (isPlaying s) (playlistQueue s) (progress s) (currentTime s)
        (duration s)) cl
  | setIsSearching b => updApp (fun s =>
      mkApp (user s) (profile s) (authModalOpen s) (view s) (likedSongs s) (playlists s)
        (currentPlaylistDetail s) (searchQuery s) (searchResults s) b
        (currentSong s) (isPlaying s) (playlistQueue s) (progress s) (currentTime s)
        (duration s)) cl
  | setCurrentSong x => updApp (fun s =>
      mkApp (user s) (profile s) (authModalOpen s) (view s) (likedSongs s) (playlists s)
        (currentPlaylistDetail s) (searchQuery s) (searchResults s) (isSearching s)
        x (isPlaying s) (playlistQueue s) (progress s) (currentTime s)
        (duration s)) cl
  | setIsPlaying b => updApp (fun s =>
      mkApp (user s) (profile s) (authModalOpen s) (view s) (likedSongs s) (playlists s)
        (currentPlaylistDetail s) (searchQuery s) (searchResults s) (isSearching s)
        (currentSong s) b (playlistQueue s) (progress s) (currentTime s)
        (duration s)) cl
  | setPlaylistQueue q => updApp (fun s =>
      mkApp (user s) (profile s) (authModalOpen s) (view s) (likedSongs s) (playlists s)
        (currentPlaylistDetail s) (searchQuery s) (searchResults s) (isSearching s)
        (currentSong s) (isPlaying s) q (progress s) (currentTime s)
        (duration s)) cl
  | setProgress p => updApp (fun s =>
      mkApp (user s) (profile s) (authModalOpen s) (view s) (likedSongs s) (playlists s)
        (currentPlaylistDetail s) (searchQuery s) (searchResults s) (isSearching s)
        (currentSong s) (isPlaying s) (playlistQueue s) p (currentTime s)
        (duration s)) cl
  | setCurrentTime t => updApp (fun s =>
      mkApp (user s) (profile s) (authModalOpen s) (view s) (likedSongs s) (playlists s)
        (currentPlaylistDetail s) (searchQuery s) (searchResults s) (isSearching s)
        (currentSong s) (isPlaying s) (playlistQueue s) (progress s) t
        (duration s)) cl
  | setDuration d => updApp (fun s =>
      mkApp (user s) (profile s) (authModalOpen s) (view s) (likedSongs s) (playlists s)
        (currentPlaylistDetail s) (searchQuery s) (searchResults s) (isSearching s)
        (currentSong s) (isPlaying s) (playlistQueue s) (progress s) (currentTime s)
        d) cl
  | audioSetCurrentTime t =>
      updAudio (fun a => mkAudio t (a_duration a) (a_paused a)) cl
  | audioPause =>
      updAudio (fun a => mkAudio (a_currentTime a) (a_duration a) true) cl
  | audioPlay =>
      updAudio (fun a => mkAudio (a_currentTime a) (a_duration a) false) cl
  | alert msg =>
      {| app := app cl; audio := audio cl; alerts := alerts cl ++ [msg];
         console := console cl |}
  | consoleError msg =>
      {| app := app cl; audio := audio cl; alerts := alerts cl;
         console := console cl ++ [msg] |}
  end.

(** ** The remote side

    The persistence tables queried by [dbService] and the catalog
    endpoint queried by [performSearch]. *)

Record PgError := mkPgError { code : string }.

(** What a query of the persistence client resolves to: [{ data, error }].
    Such a query does not reject; a failure is reported in [error]. *)
Record SbResult (X : Type) := mkSb { data : option X; error : option PgError }.

Arguments mkSb {X} _ _.
Arguments data {X} _.
Arguments error {X} _.

Record LikedRow := mkLikedRow {
  lr_id : nat; lr_user_id : string; lr_song_data : Song }.

Record PlaylistRow := mkPlaylistRow {
  pr_id : nat; pr_user_id : string; pr_name : string; pr_image : option string }.

Record PlaylistSongRow := mkPlaylistSongRow {
  ps_id : nat; ps_playlist_id : nat; ps_song_data : Song }.

(** A row of [user_playlists] joined with its [playlist_songs]. *)
Record PlaylistJoin := mkPlaylistJoin {
  pj_id : nat; pj_name : string; pj_image : option string; pj_songs : list Song }.

(** The parsed body of a catalog response: [null], or an object whose
    [songs] field is present or not. *)
Inductive Json :=
| JNull
| JObject (songs_field : option (list Song)).

(** An HTTP response; its body parses as JSON or does not. *)
Record Response := mkResponse { body : option Json }.

Inductive Exn :=
| PostgrestError (e : PgError)
| TypeError
| FetchError
| SyntaxError.

(** A promise that may reject. *)
Inductive Settled (X : Type) :=
| Fulfilled (x : X)
| Rejected (e : Exn).

Arguments Fulfilled {X} _.
Arguments Rejected {X} _.

Record Remote := mkRemote {
  profiles : list Profile;
  liked_songs : list LikedRow;
  user_playlists : list PlaylistRow;
  playlist_songs : list PlaylistSongRow;
  next_id : nat;
  catalog : string -> Response
}.

(** The requests the client awaits. *)
Inductive Req : Type -> Type :=
| profiles_select_single (userId : string) : Req (SbResult Profile)
| profiles_upsert (p : Profile) : Req (SbResult unit)
| liked_songs_select (userId : string) : Req (SbResult (list Song))
| liked_songs_select_single (userId : string) (u : string) : Req (SbResult nat)
| liked_songs_delete (rowId : nat) : Req (SbResult unit)
| liked_songs_insert (userId : string) (song : Song) : Req (SbResult unit)
| user_playlists_select (userId : string) : Req (SbResult (list PlaylistJoin))
| user_playlists_insert (userId : string) (nm : string) (img : string)
    : Req (SbResult PlaylistRow)
| user_playlists_delete (playlistId : Ident) : Req (SbResult unit)
| playlist_songs_insert (playlistId : Ident) (song : Song) : Req (SbResult unit)
| fetch_search (term : string) : Req (Settled Response)
| res_json (r : Response) : Req (Settled Json).

Definition ok {X} (x : X) : SbResult X := mkSb (Some x) None.
Definition failed {X} (c : string) : SbResult X := mkSb None (Some (mkPgError c)).

(** [.single()]: exactly one row, or the error [PGRST116]. *)
Definition single {X} (rows : list X) : SbResult X :=
  match rows with
  | [x] => ok x
  | _ => failed "PGRST116"
  end.

(** Rows of [liked_songs] of one user whose [song_data] contains
    [{ url }]. *)
Definition liked_matching (userId u : string) (rows : list LikedRow) : list LikedRow :=
  filter (fun r => String.eqb (lr_user_id r) userId
                   && String.eqb (url (lr_song_data r)) u) rows.

(** [.order('id', { ascending: false })] *)
Fixpoint insert_desc (r : LikedRow) (l : list LikedRow) : list LikedRow :=
  match l with
  | [] => [r]
  | x :: t => if Nat.leb (lr_id x) (lr_id r) then r :: l else x :: insert_desc r t
  end.

Definition order_id_desc (l : list LikedRow) : list LikedRow :=
  fold_right insert_desc [] l.

Definition upsert_profile (p : Profile) (l : list Profile) : list Profile :=
  if existsb (fun q => String.eqb (p_id q) (p_id p)) l
  then map (fun q => if String.eqb (p_id q) (p_id p) then p else q) l
  else l ++ [p].

Definition join_playlist (rm : Remote) (r : PlaylistRow) : PlaylistJoin :=
  mkPlaylistJoin (pr_id r) (pr_name r) (pr_image r)
    (map ps_song_data
       (filter (fun s => Nat.eqb (ps_playlist_id s) (pr_id r)) (playlist_songs rm))).

Definition network_failure {X} : SbResult X := failed "".

(** One request answered by the remote side.  With [fault] set the
    request fails in transit and the tables stay as they are. *)
Definition serve {X} (r : Req X) (fault : bool) (rm : Remote) : X * Remote :=
  match r in Req T return T * Remote with
  | profiles_select_single userId =>
      (if fault then network_failure
       else single (filter (fun q => String.eqb (p_id q) userId) (profiles rm)), rm)
  | profiles_upsert p =>
      if fault then (network_failure, rm)
      else (ok tt, mkRemote (upsert_profile p (profiles rm)) (liked_songs rm)
                     (user_playlists rm) (playlist_songs rm) (next_id rm) (catalog rm))
  | liked_songs_select userId =>
      (if fault then network_failure
       else ok (map lr_song_data
                  (order_id_desc
                     (filter (fun r => String.eqb (lr_user_id r) userId)
                        (liked_songs rm)))), rm)
  | liked_songs_select_single userId u =>
      (if fault then network_failure
       else single (map lr_id (liked_matching userId u (liked_songs rm))), rm)
  | liked_songs_delete rowId =>
      if fault then (network_failure, rm)
      else (ok tt, mkRemote (profiles rm)
                     (filter (fun r => negb (Nat.eqb (lr_id r) rowId)) (liked_songs rm))
                     (user_playlists rm) (playlist_songs rm) (next_id rm) (catalog rm))
  | liked_songs_insert userId song =>
      if fault then (network_failure, rm)
      else (ok tt, mkRemote (profiles rm)
                     (liked_songs rm ++ [mkLikedRow (next_id rm) userId song])
                     (user_playlists rm) (playlist_songs rm) (S (next_id rm))
                     (catalog rm))
  | user_playlists_select userId =>
      (if fault then network_failure
       else ok (map (join_playlist rm)
                  (filter (fun r => String.eqb (pr_user_id r) userId)
                     (user_playlists rm))), rm)
  | user_playlists_insert userId nm img =>
      if fault then (network_failure, rm)
      else let row := mkPlaylistRow (next_id rm) userId nm (Some img) in
           (ok row, mkRemote (profiles rm) (liked_songs rm)
                      (user_playlists rm ++ [row]) (playlist_songs rm)
                      (S (next_id rm)) (catalog rm))
  | user_playlists_delete playlistId =>
      if fault then (network_failure, rm)
      else match playlistId with
           | IdNum n =>
               (ok tt, mkRemote (profiles rm) (liked_songs rm)
                         (filter (fun r => negb (Nat.eqb (pr_id r) n)) (user_playlists rm))
                         (playlist_songs rm) (next_id rm) (catalog rm))
           | IdStr _ => (failed "22P02", rm)
           end
  | playlist_songs_insert playlistId song =>
      if fault then (network_failure, rm)
      else match playlistId with
           | IdNum n =>
               (ok tt, mkRemote (profiles rm) (liked_songs rm) (user_playlists rm)
                         (playlist_songs rm ++ [mkPlaylistSongRow (next_id rm) n song])
                         (S (next_id rm)) (catalog rm))
           | IdStr _ => (failed "22P02", rm)
           end
  | fetch_search term =>
      (if fault then Rejected FetchError else Fulfilled (catalog rm term), rm)
  | res_json r =>
      (if fault then Rejected SyntaxError
       else match body r with
            | Some j => Fulfilled j
            | None => Rejected SyntaxError
            end, rm)
  end.

(** ** Handlers as processes *)

Inductive Proc (A : Type) : Type :=
| Ret (a : A)
| Throw (e : Exn)
| Do (c : Cmd) (k : Proc A)
| Await (X : Type) (r : Req X) (k : X -> Proc A).

Arguments Ret {A} _.
Arguments Throw {A} _.
Arguments Do {A} _ _.
Arguments Await {A X} _ _.

Fixpoint bind {A B} (p : Proc A) (f : A -> Proc B) : Proc B :=
  match p with
  | Ret a => f a
  | Throw e => Throw e
  | Do c k => Do c (bind k f)
  | Await r k => Await r (fun x => bind (k x) f)
  end.

(** [try { p } catch (e) { h e }] *)
Fixpoint try_catch {A} (p : Proc A) (h : Exn -> Proc A) : Proc A :=
  match p with
  | Ret a => Ret a
  | Throw e => h e
  | Do c k => Do c (try_catch k h)
  | Await r k => Await r (fun x => try_catch (k x) h)
  end.

(** [try { p } finally { f }] *)
Fixpoint try_finally {A} (p : Proc A) (f : Proc unit) : Proc A :=
  match p with
  | Ret a => bind f (fun _ => Ret a)
  | Throw e => bind f (fun _ => Throw e)
  | Do c k => Do c (try_finally k f)
  | Await r k => Await r (fun x => try_finally (k x) f)
  end.

Definition do_ (c : Cmd) : Proc unit := Do c (Ret tt).

(** [await] of a persistence query. *)
Definition await {X} (r : Req X) : Proc X := Await r (fun x => Ret x).

(** [await] of a promise that may reject. *)
Definition await_settled {X} (r : Req (Settled X)) : Proc X :=
  Await r (fun s => match s with Fulfilled x => Ret x | Rejected e => Throw e end).

Declare Scope proc_scope.
Delimit Scope proc_scope with proc.
Notation "x <- p ;; q" := (bind p (fun x => q))
  (at level 61, p at next level, right associativity) : proc_scope.
Notation "p ;; q" := (bind p (fun _ => q))
  (at level 61, right associativity) : proc_scope.
Open Scope proc_scope.

(** ** Running a process

    [World] pairs the client with the remote side.  [run] executes a
    process to its end, every request being answered at once; [faults]
    says, request by request, which ones fail in transit (none once the
    list is used up).  Besides the final world and the outcome, a run
    records the client as it stood at each suspension point, which is
    what React renders while the handler waits, and the requests sent. *)

Record World := mkWorld { client : Client; remote : Remote }.

Inductive Outcome (A : Type) :=
| Returned (a : A)
| Thrown (e : Exn).

Arguments Returned {A} _.
Arguments Thrown {A} _.

Inductive AnyReq := anyReq (X : Type) (r : Req X).
Arguments anyReq {X} _.

Record Run (A : Type) := mkRun {
  final : World;
  outcome : Outcome A;
  seen : list Client;
  sent : list AnyReq
}.

Arguments mkRun {A} _ _ _ _.
Arguments final {A} _.
Arguments outcome {A} _.
Arguments seen {A} _.
Arguments sent {A} _.

Fixpoint run {A} (p : Proc A) (faults : list bool) (w : World) : Run A :=
  match p with
  | Ret a => mkRun w (Returned a) [] []
  | Throw e => mkRun w (Thrown e) [] []
  | Do c k => run k faults (mkWorld (exec c (client w)) (remote w))
  | Await r k =>
      let ans := serve r (hd false faults) (remote w) in
      let rest := run (k (fst ans)) (tl faults) (mkWorld (client w) (snd ans)) in
      mkRun (final rest) (outcome rest) (client w :: seen rest) (anyReq r :: sent rest)
  end.

(** ** Interleaved handlers

    Handlers that wait at the same time: a pool of suspended processes,
    each resumed when its own request is answered. *)

Inductive Task := Suspended (X : Type) (r : Req X) (k : X -> Proc unit).
Arguments Suspended {X} _ _.

Inductive Status :=
| Finished
| Failed (e : Exn)           (* unhandled rejection *)
| Waiting (t : Task).

(** Run the synchronous part of a process, up to its next [await]. *)
Fixpoint advance (p : Proc unit) (c : Client) : Client * Status :=
  match p with
  | Ret _ => (c, Finished)
  | Throw e => (c, Failed e)
  | Do cmd k => advance k (exec cmd c)
  | Await r k => (c, Waiting (Suspended r k))
  end.

Record Sys := mkSys {
  s_client : Client;
  s_remote : Remote;
  pool : list (nat * Task);    (* suspended handlers, by dispatch number *)
  dispatched : nat             (* handlers started so far *)
}.

Inductive Event :=
| Fire (h : Client -> Proc unit)        (* a handler is invoked *)
| Settle (n : nat) (fault : bool).      (* the request of handler [n] is answered *)

Fixpoint take_task (n : nat) (l : list (nat * Task)) : option (Task * list (nat * Task)) :=
  match l with
  | [] => None
  | (m, t) :: rest =>
      if Nat.eqb m n then Some (t, rest)
      else match take_task n rest with
           | Some (t', rest') => Some (t', (m, t) :: rest')
           | None => None
           end
  end.

Definition park (n : nat) (st : Status) (l : list (nat * Task)) : list (nat * Task) :=
  match st with
  | Waiting t => l ++ [(n, t)]
  | _ => l
  end.

Definition step (e : Event) (s : Sys) : Sys :=
  match e with
  | Fire h =>
      let n := S (dispatched s) in
      let r := advance (h (s_client s)) (s_client s) in
      mkSys (fst r) (s_remote s) (park n (snd r) (pool s)) n
  | Settle n fault =>
      match take_task n (pool s) with
      | None => s
      | Some (Suspended r k, rest) =>
          let ans := serve r fault (s_remote s) in
          let r' := advance (k (fst ans)) (s_client s) in
          mkSys (fst r') (snd ans) (park n (snd r') rest) (dispatched s)
      end
  end.

Definition steps (es : list Event) (s : Sys) : Sys :=
  fold_left (fun acc e => step e acc) es s.

(** ** JavaScript helpers *)

(** [Array.prototype.findIndex]: the first index whose element satisfies
    the predicate, [-1] when there is none. *)
Fixpoint findIndex_from {A} (f : A -> bool) (l : list A) (i : Z) : Z :=
  match l with
  | [] => (-1)%Z
  | x :: t => if f x then i else findIndex_from f t (i + 1)%Z
  end.

Definition findIndex {A} (f : A -> bool) (l : list A) : Z := findIndex_from f l 0%Z.

(** [arr[i]]: [undefined] outside the array. *)
Definition at_index {A} (l : list A) (i : Z) : option A :=
  if (i <? 0)%Z then None else nth_error l (Z.to_nat i).

(** [s.split('@')[0]] *)
Fixpoint before_at (s : string) : string :=
  match s with
  | EmptyString => EmptyString
  | String c t => if Ascii.eqb c "@"%char then EmptyString else String c (before_at t)
  end.

Definition show_exn (e : Exn) : string :=
  match e with
  | PostgrestError pe => "PostgrestError " ++ code pe
  | TypeError => "TypeError"
  | FetchError => "TypeError: Failed to fetch"
  | SyntaxError => "SyntaxError"
  end.

(** ** [services/dbService.ts] *)

Module dbService.

Definition default_image : string := "https://cdn.odzre.my.id/77c.jpg".

Definition throw_if_error {X} (r : SbResult X) : Proc unit :=
  match error r with
  | Some e => Throw (PostgrestError e)
  | None => Ret tt
  end.

Definition getProfile (userId : string) : Proc (option Profile) :=
  r <- await (profiles_select_single userId) ;;
  match error r with
  | Some e =>
      (* PGRST116 (no rows found) is allowed *)
      if negb (String.eqb (code e) "PGRST116") then Throw (PostgrestError e)
      else Ret (data r)
  | None => Ret (data r)
  end.

Definition upsertProfile (p : Profile) : Proc unit :=
  r <- await (profiles_upsert p) ;;
  throw_if_error r.

Definition getLikedSongs (userId : string) : Proc (list Song) :=
  r <- await (liked_songs_select userId) ;;
  throw_if_error r ;;
  match data r with
  | Some rows => Ret rows
  | None => Throw TypeError
  end.

(** The two writes are awaited and their [error] is not read. *)
Definition toggleLikedSong (userId : string) (song : Song) : Proc bool :=
  r <- await (liked_songs_select_single userId (url song)) ;;
  match data r with
  | Some existing =>
      _ <- await (liked_songs_delete existing) ;;
      Ret false                                   (* Removed *)
  | None =>
      _ <- await (liked_songs_insert userId song) ;;
      Ret true                                    (* Added *)
  end.

Definition getPlaylists (userId : string) : Proc (list Playlist) :=
  r <- await (user_playlists_select userId) ;;
  throw_if_error r ;;
  match data r with
  | Some rows =>
      Ret (map (fun pl => mkPlaylist (IdNum (pj_id pl)) (pj_name pl)
                            (or_else (pj_image pl) default_image) (pj_songs pl)) rows)
  | None => Throw TypeError
  end.

Definition createPlaylist (userId nm img : string) : Proc (option PlaylistRow) :=
  r <- await (user_playlists_insert userId nm img) ;;
  throw_if_error r ;;
  Ret (data r).

Definition deletePlaylist (playlistId : Ident) : Proc unit :=
  r <- await (user_playlists_delete playlistId) ;;
  throw_if_error r.

Definition addSongToPlaylist (playlistId : Ident) (song : Song) : Proc unit :=
  r <- await (playlist_songs_insert playlistId song) ;;
  throw_if_error r.

End dbService.

(** ** [App.tsx]

    A handler is a function of the client as it stands when the handler
    is invoked: the values its closure reads ([user], [currentSong],
    [playlistQueue], [audioRef.current]). *)

Definition isVerified (st : AppState) : bool :=
  match user st with
  | Some u => truthy (email_confirmed_at u)
  | None => false
  end.

Definition isLiked (st : AppState) (song : Song) : bool :=
  existsb (fun s => String.eqb (url s) (url song)) (likedSongs st).

Definition fetchData (currentUser : User) : Proc unit :=
  try_catch
    (let userId := u_id currentUser in
     prof <- dbService.getProfile userId ;;
     prof' <- match prof with
              | Some p => Ret p
              | None =>
                  (* auto-create a profile for users who have none yet *)
                  let newProfile :=
                    {| p_id := userId;
                       username := or_else (option_map before_at (email currentUser)) "User";
                       full_name := or_else (meta_full_name currentUser) "";
                       avatar_url := if truthy (meta_avatar_url currentUser)
                                     then meta_avatar_url currentUser else None;
                       phone := "" |} in
                  dbService.upsertProfile newProfile ;;
                  Ret newProfile
              end ;;
     do_ (setProfile (Some prof')) ;;
     liked <- dbService.getLikedSongs userId ;;
     do_ (setLikedSongs (fun _ => liked)) ;;
     pls <- dbService.getPlaylists userId ;;
     do_ (setPlaylists (fun _ => pls)))
    (fun e => do_ (consoleError "Critical: Failed to sync with Supabase.")).

(** The listener of [supabase.auth.onAuthStateChange]. *)
Definition onAuthStateChange (sessionUser : option User) : Proc unit :=
  do_ (setUser sessionUser) ;;
  match sessionUser with
  | Some u =>
      (* strict verification gate *)
      if truthy (email_confirmed_at u) then fetchData u
      else do_ (setLikedSongs (fun _ => [])) ;; do_ (setPlaylists (fun _ => [])) ;;
           do_ (setProfile None)
  | None =>
      do_ (setLikedSongs (fun _ => [])) ;; do_ (setPlaylists (fun _ => [])) ;;
      do_ (setProfile None)
  end.

(** *** Audio logic *)

Definition togglePlay (cl : Client) : Proc unit :=
  match audio cl, currentSong (app cl) with
  | Some _, Some _ =>
      if isPlaying (app cl)
      then do_ audioPause ;; do_ (setIsPlaying false)
      else do_ audioPlay ;; do_ (setIsPlaying true)
  | _, _ => Ret tt
  end.

Definition handleTimeUpdate (cl : Client) : Proc unit :=
  match audio cl with
  | Some a =>
      do_ (setCurrentTime (a_currentTime a)) ;;
      do_ (setDuration (a_duration a)) ;;
      do_ (setProgress
             (a_currentTime a / (if Qeq_bool (a_duration a) 0 then 1 else a_duration a)
              * 100)%Q)
  | None => Ret tt
  end.

Definition handleEnded (cl : Client) : Proc unit :=
  match currentSong (app cl) with
  | None => Ret tt
  | Some cur =>
      (* auto-play logic *)
      let queue := playlistQueue (app cl) in
      let currentIndex := findIndex (fun s => String.eqb (url s) (url cur)) queue in
      if negb (currentIndex =? -1)%Z && (currentIndex <? Z.of_nat (List.length queue) - 1)%Z
      then do_ (setCurrentSong (at_index queue (currentIndex + 1)%Z))
      else do_ (setIsPlaying false)
  end.

(** [val] is [Number(e.target.value)] of the range input, a percentage. *)
Definition handleSeek (val : Q) (cl : Client) : Proc unit :=
  match audio cl with
  | Some a =>
      do_ (audioSetCurrentTime ((val / 100) * a_duration a)%Q) ;;
      do_ (setProgress val)
  | None => Ret tt
  end.

(** *** Actions *)

Definition mapSong (s : Song) : Song :=
  {| url := url s; title := title s; artist := artist s;
     thumbnail := None; cover := thumbnail s |}.

Definition performSearch (term : string) : Proc unit :=
  do_ (setIsSearching true) ;;
  try_finally
    (try_catch
       (res <- await_settled (fetch_search term) ;;
        data' <- await_settled (res_json res) ;;
        match data' with
        | JNull => Throw TypeError                 (* reading [songs] of [null] *)
        | JObject (Some l) => do_ (setSearchResults (map mapSong l))
        | JObject None => do_ (setSearchResults [])
        end)
       (fun e => do_ (consoleError (show_exn e))))
    (do_ (setIsSearching false)).

(** The [onChange] of the search input. *)
Definition onSearchChange (value : string) : Proc unit :=
  do_ (setSearchQuery value) ;;
  if (2 <? String.length value)%nat then performSearch value else Ret tt.

Definition playMusic (song : Song) (queue : list Song) : Proc unit :=
  do_ (setPlaylistQueue (match queue with [] => [song] | _ => queue end)) ;;
  do_ (setCurrentSong (Some song)).

Definition toggleLike (song : Song) (cl : Client) : Proc unit :=
  match user (app cl) with
  | None => do_ (setAuthModalOpen true)
  | Some u =>
      if negb (truthy (email_confirmed_at u))
      then do_ (alert "Please verify your email to like songs.")
      else
        isAdded <- dbService.toggleLikedSong (u_id u) song ;;
        if isAdded : bool
        then do_ (setLikedSongs (fun prev => song :: prev))
        else do_ (setLikedSongs
                    (fun prev => filter (fun s => negb (String.eqb (url s) (url song))) prev))
  end.

(** [answer] is what [prompt("Nama Playlist:")] returns when it is
    reached. *)
Definition createNewPlaylist (answer : option string) (cl : Client) : Proc unit :=
  match user (app cl) with
  | None => do_ (setAuthModalOpen true)
  | Some u =>
      if negb (truthy (email_confirmed_at u))
      then do_ (alert "Please verify your email to create playlists.")
      else
        if negb (truthy answer) then Ret tt
        else
          let nm := or_else answer "" in
          let img := "https://cdn.odzre.my.id/77c.jpg" in
          try_catch
            (newPl <- dbService.createPlaylist (u_id u) nm img ;;
             match newPl with
             | Some row =>
                 do_ (setPlaylists (fun prev =>
                        prev ++ [mkPlaylist (IdNum (pr_id row)) (pr_name row)
                                   (or_else (pr_image row) "") []]))
             | None => Throw TypeError
             end)
            (fun e => do_ (consoleError "Failed to create playlist") ;;
                      do_ (alert "Failed to create playlist"))
  end.

Definition openPlaylist (pl : Playlist) : Proc unit :=
  do_ (setCurrentPlaylistDetail (Some pl)) ;;
  do_ (setView playlist_detail).

(** The playlists listed in the library view, each with its delete
    control: [{isVerified && playlists.map(...)}]. *)
Definition listedPlaylists (st : AppState) : list Playlist :=
  if isVerified st then playlists st else [].

(** The [onClick] of a playlist's delete control; [confirmed] is the
    answer to [confirm("Delete playlist?")]. *)
Definition deletePlaylistClick (confirmed : bool) (pl : Playlist) : Proc unit :=
  if confirmed
  then dbService.deletePlaylist (id pl) ;;
       do_ (setPlaylists (fun prev => filter (fun p => negb (Ident_eqb (id p) (id pl))) prev))
  else Ret tt.

(** * Vocabulary of the properties and example data *)

(** ** Playback: queue advancement *)

(** The track that is playing sits at position [i] of the queue: the
    track there carries the url of [currentSong] (tracks are compared by
    url). *)
Definition playingAt (cl : Client) (i : nat) : Prop :=
  exists cur t,
    currentSong (app cl) = Some cur /\
    nth_error (playlistQueue (app cl)) i = Some t /\
    url t = url cur.

(** Position [f] is the first one of the queue at which the playing track
    sits. *)
Definition locatedAt (cl : Client) (f : nat) : Prop :=
  playingAt cl f /\ forall j, (j < f)%nat -> ~ playingAt cl j.

(** *** Concrete tracks and clients used in the examples below *)

Definition trackA : Song := mkSong "u/a" "A" "artist" None (Some "a.jpg").
Definition trackB : Song := mkSong "u/b" "B" "artist" None (Some "b.jpg").
Definition trackC : Song := mkSong "u/c" "C" "artist" None (Some "c.jpg").

Definition withApp (st : AppState) : Client :=
  {| app := st; audio := Some (mkAudio 0 0 true); alerts := []; console := [] |}.

(** Queue [A; B; C] with [B] playing. *)
Definition playingB : Client :=
  withApp (mkApp None None false home [] [] None "" [] false
             (Some trackB) true [trackA; trackB; trackC] 0 0 0).

(** Queue [A; B] with [C] current. *)
Definition playingOutside : Client :=
  withApp (mkApp None None false home [] [] None "" [] false
             (Some trackC) true [trackA; trackB] 0 0 0).

(** ** Playback: seeking *)

(** The value of the seek control, [<input type="range" min="0" max="100">],
    with its thumb put at [raw]: the control keeps its value between its
    [min] and its [max]. *)
Definition rangeValue (raw : Q) : Q :=
  if Qle_bool raw 0 then 0%Q else if Qle_bool 100 raw then 100%Q else raw.

(** A fraction brought into the unit interval. *)
Definition clampUnit (fraction : Q) : Q :=
  if Qle_bool fraction 0 then 0%Q else if Qle_bool 1 fraction then 1%Q else fraction.

(** [seek(fraction)] of the playback engine: the seek control is put at
    [fraction * 100] percent and [handleSeek] receives the value the control
    then has. *)
Definition seek (fraction : Q) (cl : Client) : Client :=
  fst (advance (handleSeek (rangeValue (fraction * 100)) cl) cl).

Definition position (cl : Client) : option Q := option_map a_currentTime (audio cl).

Definition tenSeconds : Client :=
  {| app := initialApp; audio := Some (mkAudio 0 10 false); alerts := []; console := [] |}.

(** ** Search: short queries and failed fetches *)

(** Results [A] on screen, no search in flight. *)
Definition showingA : Client :=
  withApp (mkApp None None false search [] [] None "abc" [trackA] false
             None false [] 0 0 0).

Definition emptyRemote : Remote :=
  mkRemote [] [] [] [] 1 (fun _ => mkResponse (Some (JObject (Some [])))).

(** A search fails when the fetch is rejected, when the body cannot be
    read as JSON, or when the body is [null]. *)
Definition searchFails (term : string) (faults : list bool) (rm : Remote) : Prop :=
  hd false faults = true \/
  hd false (tl faults) = true \/
  body (catalog rm term) = None \/
  body (catalog rm term) = Some JNull.

(** ** Search: responses that arrive out of order *)

(** *** The pool of suspended handlers *)

Definition numbers (l : list (nat * Task)) : list nat := map fst l.

Definition task_of (n : nat) (l : list (nat * Task)) : option Task :=
  option_map fst (take_task n l).

(** Dispatch numbers are handed out once and in increasing order. *)
Definition wf (s : Sys) : Prop :=
  NoDup (numbers (pool s)) /\
  forall m, In m (numbers (pool s)) -> m <= dispatched s.

Definition settles (n : nat) (e : Event) : bool :=
  match e with
  | Settle m _ => Nat.eqb m n
  | Fire _ => false
  end.

(** *** The two suspension points of [performSearch] *)

Definition searchHandler (e : Exn) : Proc unit := do_ (consoleError (show_exn e)).

Definition applyJson (data' : Json) : Proc unit :=
  match data' with
  | JNull => Throw TypeError
  | JObject (Some l) => do_ (setSearchResults (map mapSong l))
  | JObject None => do_ (setSearchResults [])
  end.

(** What is left of [performSearch] once the body has been read. *)
Definition afterJson (x : Settled Json) : Proc unit :=
  try_finally
    (try_catch
       (data' <- match x with Fulfilled j => Ret j | Rejected e => Throw e end ;;
        applyJson data')
       searchHandler)
    (do_ (setIsSearching false)).

(** What is left of [performSearch] once the fetch has settled. *)
Definition afterFetch (x : Settled Response) : Proc unit :=
  try_finally
    (try_catch
       (res <- match x with Fulfilled r => Ret r | Rejected e => Throw e end ;;
        data' <- await_settled (res_json res) ;;
        applyJson data')
       searchHandler)
    (do_ (setIsSearching false)).

(** *** Two searches answered in reverse order *)

Definition twoTermCatalog (term : string) : Response :=
  if String.eqb term "abc" then mkResponse (Some (JObject (Some [trackA])))
  else mkResponse (Some (JObject (Some [trackB]))).

Definition sys0 : Sys :=
  mkSys (withApp initialApp) (mkRemote [] [] [] [] 1 twoTermCatalog) [] 0.

(** "abc" is dispatched as number 1 and "abcd" as number 2; the answer to
    number 2 arrives first, the answer to number 1 last. *)
Definition reversedArrival : list Event :=
  [ Fire (fun _ => onSearchChange "abc");
    Fire (fun _ => onSearchChange "abcd");
    Settle 2 false; Settle 2 false;
    Settle 1 false; Settle 1 false ].

(** ** Library: the verification gate *)

Definition alice : User :=
  mkUser "u1" (Some "alice@example.com") (Some "2026-01-14T00:00:00Z") None None.

(** Signed up, email not yet confirmed. *)
Definition bob : User := mkUser "u2" (Some "bob@example.com") None None None.

Definition signedIn (u : option User) (liked : list Song) (pls : list Playlist) : Client :=
  withApp (mkApp u None false library liked pls None "" [] false None false [] 0 0 0).

(** What a refused operation looks like: nothing was sent, the handler
    returned, the remote tables and the library are as before; an
    anonymous visitor gets the sign-in dialog, a user without a confirmed
    email gets the message [msg]. *)
Definition refused (msg : string) (w : World) (r : Run unit) : Prop :=
  sent r = [] /\
  outcome r = Returned tt /\
  remote (final r) = remote w /\
  likedSongs (app (client (final r))) = likedSongs (app (client w)) /\
  playlists (app (client (final r))) = playlists (app (client w)) /\
  match sessionOf (user (app (client w))) with
  | Anonymous =>
      authModalOpen (app (client (final r))) = true /\
      alerts (client (final r)) = alerts (client w)
  | AuthenticatedUnverified =>
      alerts (client (final r)) = alerts (client w) ++ [msg] /\
      authModalOpen (app (client (final r))) = authModalOpen (app (client w))
  | AuthenticatedVerified => False
  end.

Definition playlist7 : Playlist := mkPlaylist (IdNum 7) "Mix" "mix.jpg" [].

Definition remoteWithPlaylist7 : Remote :=
  mkRemote [] [] [mkPlaylistRow 7 "u1" "Mix" (Some "mix.jpg")] [] 8
    (fun _ => mkResponse None).

(** ** Library: liking and unliking *)

Definition withoutUrl (song : Song) (l : list Song) : list Song :=
  filter (fun s => negb (String.eqb (url s) (url song))) l.

Definition likedRemote (rows : list LikedRow) (next : nat) : Remote :=
  mkRemote [] rows [] [] next (fun _ => mkResponse None).

(** *** Liking twice *)

Definition remoteOfAB : Remote :=
  likedRemote [mkLikedRow 1 "u1" trackB; mkLikedRow 2 "u1" trackA] 3.

(** ** Library: synchronisation *)

(** The profile [fetchData] creates for a user who has none. *)
Definition newProfileOf (currentUser : User) : Profile :=
  {| p_id := u_id currentUser;
     username := or_else (option_map before_at (email currentUser)) "User";
     full_name := or_else (meta_full_name currentUser) "";
     avatar_url := if truthy (meta_avatar_url currentUser)
                   then meta_avatar_url currentUser else None;
     phone := "" |}.

(** What the three reads return when nothing fails. *)
Definition profileOf (currentUser : User) (rm : Remote) : Profile :=
  match data (fst (serve (profiles_select_single (u_id currentUser)) false rm)) with
  | Some p => p
  | None => newProfileOf currentUser
  end.

Definition likedOf (currentUser : User) (rm : Remote) : list Song :=
  match data (fst (serve (liked_songs_select (u_id currentUser)) false rm)) with
  | Some l => l
  | None => []
  end.

Definition playlistsOf (currentUser : User) (rm : Remote) : list Playlist :=
  match data (fst (serve (user_playlists_select (u_id currentUser)) false rm)) with
  | Some rows =>
      map (fun pl => mkPlaylist (IdNum (pj_id pl)) (pj_name pl)
                       (or_else (pj_image pl) dbService.default_image) (pj_songs pl)) rows
  | None => []
  end.

(** The client after the first [k] of the three parts have been set. *)
Definition stage (k : nat) (currentUser : User) (rm : Remote) (cl : Client) : Client :=
  match k with
  | 0 => cl
  | 1 => exec (setProfile (Some (profileOf currentUser rm))) cl
  | 2 => exec (setLikedSongs (fun _ => likedOf currentUser rm))
           (exec (setProfile (Some (profileOf currentUser rm))) cl)
  | _ => exec (setPlaylists (fun _ => playlistsOf currentUser rm))
           (exec (setLikedSongs (fun _ => likedOf currentUser rm))
              (exec (setProfile (Some (profileOf currentUser rm))) cl))
  end.

Definition aliceProfile : Profile := mkProfile "u1" "alice" "Alice" None "".

Definition aliceRemote : Remote :=
  mkRemote [aliceProfile] [mkLikedRow 1 "u1" trackA]
    [mkPlaylistRow 7 "u1" "Mix" (Some "mix.jpg")] [mkPlaylistSongRow 2 7 trackB] 8
    (fun _ => mkResponse None).

Definition noFaults (faults : list bool) : Prop := forallb negb faults = true.

Definition syncFailure : string := "Critical: Failed to sync with Supabase.".

(** Whether the first read of a sync finds the profile: exactly one row of
    [profiles] carries the user's id. *)
Definition hasProfile (currentUser : User) (rm : Remote) : bool :=
  match data (fst (serve (profiles_select_single (u_id currentUser)) false rm)) with
  | Some _ => true
  | None => false
  end.

(** The requests of a sync that runs to its end, in the order they are
    sent. *)
Definition syncRequests (currentUser : User) (rm : Remote) : list AnyReq :=
  anyReq (profiles_select_single (u_id currentUser))
  :: (if hasProfile currentUser rm then []
      else [anyReq (profiles_upsert (newProfileOf currentUser))])
  ++ [anyReq (liked_songs_select (u_id currentUser));
      anyReq (user_playlists_select (u_id currentUser))].

(** How many of the three parts are set when request number [i] of the sync
    is sent (numbered from 0): the profile is set once it has been read
    and, where there was none, created. *)
Definition partsBefore (currentUser : User) (rm : Remote) (i : nat) : nat :=
  if hasProfile currentUser rm then i else i - 1.

(** The number of the first of [n] requests that fails in transit. *)
Fixpoint firstFault (n : nat) (faults : list bool) : option nat :=
  match n with
  | 0 => None
  | S n' => if hd false faults then Some 0
            else option_map S (firstFault n' (tl faults))
  end.

(** * Further vocabulary: the rest of the client *)

(** ** Playback: a whole queue *)

(** The client once [playMusic song queue] has run. *)
Definition played (song : Song) (queue : list Song) (cl : Client) : Client :=
  fst (advance (playMusic song queue) cl).

(** The client once the current track has ended [k] times in a row. *)
Fixpoint endedTimes (k : nat) (cl : Client) : Client :=
  match k with
  | 0 => cl
  | S k' => endedTimes k' (fst (advance (handleEnded cl) cl))
  end.

Definition toggled (cl : Client) : Client := fst (advance (togglePlay cl) cl).

Definition timeUpdated (cl : Client) : Client := fst (advance (handleTimeUpdate cl) cl).

(** ** Session: a sync in flight *)

Definition idleAlice : Sys := mkSys (signedIn None [] []) aliceRemote [] 0.

(** ** Library: the list and the table *)

(** The liked songs shown are in step with the table: the list is what a
    sync would return, row ids are distinct and below the next id to be
    handed out, and the user has at most one row per url. *)
Definition likedInSync (u : User) (cl : Client) (rm : Remote) : Prop :=
  likedSongs (app cl) = likedOf u rm /\
  NoDup (map lr_id (liked_songs rm)) /\
  (forall r, In r (liked_songs rm) -> lr_id r < next_id rm) /\
  (forall x, List.length (liked_matching (u_id u) x (liked_songs rm)) <= 1).

(** Descending by id. *)
Fixpoint sortedDesc (l : list LikedRow) : Prop :=
  match l with
  | [] => True
  | x :: t => (forall y, In y t -> lr_id y <= lr_id x) /\ sortedDesc t
  end.

(** ** Library: playlists *)

(** The cover every new playlist gets. *)
Definition newPlaylistImage : string := "https://cdn.odzre.my.id/77c.jpg".

(** A playlist with one more song at its end. *)
Definition withSong (song : Song) (pl : Playlist) : Playlist :=
  mkPlaylist (id pl) (name pl) (image pl) (songs pl ++ [song]).

(** ** [components/AuthModal.tsx]

    The modal keeps its own state.  [handleAuth] has one [await]: the part
    before it is [handleAuth_start], which says what is sent, and the part
    after it is [handleAuth_resume], which runs on the state as it stands
    when the identity provider has answered. *)

Module AuthModal.

Record State := mkState {
  email : string;
  password : string;
  loading : bool;
  isSignUp : bool;
  errorMsg : string;
  rateLimitSeconds : Z
}.

Inductive Request :=
| signUp (email password : string)
| signInWithPassword (email password : string).

(** The answer of the identity provider: an error with its message, or
    data in which a user and a session are present or not. *)
Inductive Answer :=
| answerError (message : string)
| answerData (hasUser hasSession : bool).

(** What the modal did towards the outside: [alert] calls and
    [onClose]. *)
Record Shown := mkShown { alerted : list string; closed : bool }.

Definition setErrorMsg (m : string) (st : State) : State :=
  mkState (email st) (password st) (loading st) (isSignUp st) m (rateLimitSeconds st).

Definition setLoading (b : bool) (st : State) : State :=
  mkState (email st) (password st) b (isSignUp st) (errorMsg st) (rateLimitSeconds st).

Definition setRateLimitSeconds (f : Z -> Z) (st : State) : State :=
  mkState (email st) (password st) (loading st) (isSignUp st) (errorMsg st)
    (f (rateLimitSeconds st)).

Definition registered : string :=
  "Registration successful! Please check your email inbox to verify your account before logging in.".

Definition handleAuth_start (st : State) : State * option Request :=
  let st1 := setErrorMsg "" st in
  if isSignUp st
  then
    (* prevent spam *)
    if (0 <? rateLimitSeconds st)%Z then (st1, None)
    else (setLoading true st1, Some (signUp (email st) (password st)))
  else (setLoading true st1, Some (signInWithPassword (email st) (password st))).

Definition handleAuth_resume (req : Request) (a : Answer) (st : State) : State * Shown :=
  match req, a with
  | _, answerError message =>
      (setLoading false (setErrorMsg message st), mkShown [] false)
  | signUp _ _, answerData hasUser hasSession =>
      (* trigger the rate limit, then inform the user *)
      (setLoading false (setRateLimitSeconds (fun _ => 30%Z) st),
       if hasUser && negb hasSession then mkShown [registered] true
       else if hasUser && hasSession then mkShown [] true
       else mkShown [] false)
  | signInWithPassword _ _, answerData _ _ =>
      (setLoading false st, mkShown [] true)
  end.

(** One firing of the countdown interval, which exists only while
    [rateLimitSeconds > 0]. *)
Definition tick (st : State) : State :=
  if (0 <? rateLimitSeconds st)%Z then setRateLimitSeconds (fun prev => (prev - 1)%Z) st
  else st.

Fixpoint ticks (k : nat) (st : State) : State :=
  match k with
  | 0 => st
  | S k' => ticks k' (tick st)
  end.

(** The [disabled] attribute of the submit button. *)
Definition submitDisabled (st : State) : bool :=
  loading st || (isSignUp st && (0 <? rateLimitSeconds st)%Z).

End AuthModal.

(** ** Formatters *)

(** [Math.trunc], and the remainder [a % b] of JavaScript numbers, which
    takes the sign of [a]. *)
Definition Qtrunc (x : Q) : Z := if Qle_bool 0 x then Qfloor x else Qceiling x.

Definition jsRem (a b : Q) : Q := (a - b * inject_Z (Qtrunc (a / b)))%Q.

(** An integer as JavaScript prints it. *)
Definition showInt (z : Z) : string := NilZero.string_of_int (Z.to_int z).

(** A JavaScript number: [NaN], an infinity, or a finite value.  The
    [duration] of an audio element is [NaN] before the metadata is loaded
    and [Infinity] for an unbounded stream. *)
Inductive Num (V : Type) :=
| NaN
| PosInf
| NegInf
| Fin (v : V).

Arguments NaN {V}.
Arguments PosInf {V}.
Arguments NegInf {V}.
Arguments Fin {V} _.

Definition isNaN {V} (x : Num V) : bool :=
  match x with NaN => true | _ => false end.

(** [x / 60] *)
Definition div60 (x : Num Q) : Num Q :=
  match x with
  | Fin q => Fin (q / 60)%Q
  | NaN => NaN
  | PosInf => PosInf
  | NegInf => NegInf
  end.

(** [x % 60]: the remainder of an infinity is [NaN]. *)
Definition rem60 (x : Num Q) : Num Q :=
  match x with
  | Fin q => Fin (jsRem q 60)
  | _ => NaN
  end.

(** [Math.floor] *)
Definition floor (x : Num Q) : Num Z :=
  match x with
  | Fin q => Fin (Qfloor q)
  | NaN => NaN
  | PosInf => PosInf
  | NegInf => NegInf
  end.

(** [x < 10]: a comparison with [NaN] is false. *)
Definition lt10 (x : Num Z) : bool :=
  match x with
  | Fin z => (z <? 10)%Z
  | NegInf => true
  | NaN | PosInf => false
  end.

(** A whole number as a template literal or [+] on a string prints it. *)
Definition showNum (x : Num Z) : string :=
  match x with
  | Fin z => showInt z
  | NaN => "NaN"
  | PosInf => "Infinity"
  | NegInf => "-Infinity"
  end.

Definition formatTime (s : Num Q) : string :=
  if isNaN s then "0:00"
  else
    let min := floor (div60 s) in
    let sec := floor (rem60 s) in
    showNum min ++ ":" ++ (if lt10 sec then "0" ++ showNum sec else showNum sec).

(** The seconds field of a time label. *)
Definition twoDigits (z : Z) : string :=
  if (z <? 10)%Z then "0" ++ showInt z else showInt z.

(** * Properties *)

(** ** [findIndex] *)

Section FindIndex.
Context {A : Type} (f : A -> bool).

Lemma findIndex_from_absent (l : list A) (i : Z) :
  (forall x, In x l -> f x = false) -> findIndex_from f l i = (-1)%Z.
Proof.
  revert i; induction l as [|x t IH]; intros i H; simpl; [reflexivity|].
  rewrite (H x (or_introl eq_refl)). apply IH. intros y Hy. apply H. now right.
Qed.

Lemma findIndex_from_first (l : list A) (n : nat) (x : A) (i : Z) :
  nth_error l n = Some x -> f x = true ->
  (forall j y, (j < n)%nat -> nth_error l j = Some y -> f y = false) ->
  findIndex_from f l i = (i + Z.of_nat n)%Z.
Proof.
  revert n i; induction l as [|a t IH]; intros n i Hn Hx Hbefore.
  - destruct n; discriminate.
  - destruct n as [|n]; simpl in *.
    + injection Hn as ->. rewrite Hx. lia.
    + rewrite (Hbefore 0%nat a); [|lia|reflexivity].
      rewrite (IH n (i + 1)%Z Hn Hx); [lia|].
      intros j y Hj Hy. apply (Hbefore (S j) y); [lia|exact Hy].
Qed.

Lemma findIndex_absent (l : list A) :
  (forall x, In x l -> f x = false) -> findIndex f l = (-1)%Z.
Proof. apply findIndex_from_absent. Qed.

Lemma findIndex_first (l : list A) (n : nat) (x : A) :
  nth_error l n = Some x -> f x = true ->
  (forall j y, (j < n)%nat -> nth_error l j = Some y -> f y = false) ->
  findIndex f l = Z.of_nat n.
Proof.
  intros Hn Hx Hb. unfold findIndex.
  rewrite (@findIndex_from_first l n x 0%Z Hn Hx Hb). lia.
Qed.
End FindIndex.

Lemma at_index_nat {A} (l : list A) (n : nat) :
  at_index l (Z.of_nat n) = nth_error l n.
Proof.
  unfold at_index. destruct (Z.ltb_spec (Z.of_nat n) 0); [lia|].
  now rewrite Nat2Z.id.
Qed.

(** ** Playback: queue advancement *)

Lemma first_position {A} (p : A -> bool) (l : list A) (i : nat) (x : A) :
  nth_error l i = Some x -> p x = true ->
  exists f y, (f <= i)%nat /\ nth_error l f = Some y /\ p y = true /\
    forall j y', (j < f)%nat -> nth_error l j = Some y' -> p y' = false.
Proof.
  revert i. induction l as [|h l IH]; intros i Hn Hp.
  - destruct i; discriminate.
  - destruct (p h) eqn:Eh.
    + exists 0%nat, h. repeat split; [lia | assumption | intros j y' Hj; lia].
    + destruct i as [|i]; [simpl in Hn; injection Hn as ->; congruence|].
      simpl in Hn. destruct (IH i Hn Hp) as (f & y & Hf & Hy & Hpy & Hfirst).
      exists (S f), y. repeat split; [lia | exact Hy | exact Hpy |].
      intros [|j] y' Hj Hy'; simpl in Hy'; [injection Hy' as <-; exact Eh|].
      apply (Hfirst j); [lia|assumption].
Qed.

(** C5 as stated fails for a track that sits behind another one with the
    same url.  The queue [A; B; A] is started at its first track; two
    [ended] events bring playback to position 2, the last one.  The next
    [ended] event does not stop playback there: the url is found at
    position 0, so the track at position 1 becomes current again and
    playback goes on. *)
Lemma handleEnded_repeated_url_goes_back :
  let Q := [trackA; trackB; trackA] in
  let start := played trackA Q playingB in
  let cl := endedTimes 2 start in
  let cl' := fst (advance (handleEnded cl) cl) in
  currentSong (app start) = nth_error Q 0 /\
  currentSong (app (endedTimes 1 start)) = nth_error Q 1 /\
  currentSong (app cl) = nth_error Q 2 /\
  playlistQueue (app cl) = Q /\
  playingAt cl 2 /\
  (2 = List.length Q - 1)%nat /\
  isPlaying (app cl) = true /\
  isPlaying (app cl') = true /\
  currentSong (app cl') = nth_error Q 1 /\
  currentSong (app cl') <> currentSong (app cl).
Proof.
  cbv zeta.
  split; [reflexivity|]. split; [reflexivity|]. split; [reflexivity|].
  split; [reflexivity|].
  split; [exists trackA, trackA; repeat split|].
  split; [reflexivity|]. split; [reflexivity|]. split; [reflexivity|].
  split; [reflexivity|]. vm_compute. discriminate.
Qed.

(** C5, amended.  Let the playing track sit at position [i] of the queue,
    and let [f] be the position [handleEnded] locates by the track's url:
    the first position of the queue that carries this url, so [f <= i],
    and [f = i] when the urls of the queue are pairwise distinct.  When
    [f < len - 1], the track at [f + 1] becomes the current one, and the
    queue and the playing flag stay as they are; when [f = len - 1],
    playback is marked as not playing, while the current track, the queue
    and the audio element stay as they are (the handler does not pause the
    element itself).  In both cases the handler finishes at once, without
    sending a request, and the queue is never written. *)
Theorem handleEnded_advances_or_stops (cl : Client) (i : nat) :
  playingAt cl i ->
  let Q := playlistQueue (app cl) in
  let cl' := fst (advance (handleEnded cl) cl) in
  snd (advance (handleEnded cl) cl) = Finished /\
  playlistQueue (app cl') = Q /\
  exists f,
    locatedAt cl f /\ (f <= i)%nat /\
    (NoDup (map url Q) -> f = i) /\
    ((f < List.length Q - 1)%nat ->
       (exists next, nth_error Q (S f) = Some next /\ currentSong (app cl') = Some next) /\
       isPlaying (app cl') = isPlaying (app cl)) /\
    (f = (List.length Q - 1)%nat ->
       isPlaying (app cl') = false /\ currentSong (app cl') = currentSong (app cl) /\
       audio cl' = audio cl).
Proof.
  intros (cur & t & Hc & Hn & Hu) Q cl'. fold Q in Hn.
  destruct (@first_position _ (fun s => String.eqb (url s) (url cur)) Q i t Hn
              (proj2 (String.eqb_eq _ _) Hu)) as (f & y & Hfi & Hy & Hpy & Hfirst).
  assert (Hidx : findIndex (fun s => String.eqb (url s) (url cur)) Q = Z.of_nat f)
    by (apply findIndex_first with (x := y); assumption).
  assert (Hlen : (f < List.length Q)%nat) by (apply nth_error_Some; now rewrite Hy).
  assert (Hloc : locatedAt cl f).
  { split.
    - exists cur, y. repeat split; [exact Hc | exact Hy | now apply String.eqb_eq].
    - intros j Hj (cur' & t' & Hc' & Hn' & Hu'). rewrite Hc in Hc'. injection Hc' as <-.
      apply String.eqb_eq in Hu'. fold Q in Hn'. rewrite (Hfirst j t' Hj Hn') in Hu'.
      discriminate. }
  assert (Hnd : NoDup (map url Q) -> f = i).
  { intros Hnd. apply (proj1 (NoDup_nth_error _) Hnd).
    - rewrite length_map. exact Hlen.
    - rewrite !nth_error_map, Hy, Hn. simpl. apply String.eqb_eq in Hpy. congruence. }
  subst cl'. unfold handleEnded. rewrite Hc. cbv zeta. fold Q. rewrite Hidx.
  destruct (Z.eqb_spec (Z.of_nat f) (-1)) as [E|_]; [lia|]. simpl negb. simpl andb.
  destruct (Z.ltb_spec (Z.of_nat f) (Z.of_nat (List.length Q) - 1)) as [Hlt|Hge];
    unfold do_; cbn [advance fst snd]; unfold exec, updApp;
    cbn [app audio playlistQueue currentSong isPlaying].
  - split; [reflexivity|]. split; [reflexivity|]. exists f.
    split; [exact Hloc|]. split; [exact Hfi|]. split; [exact Hnd|]. split; [|lia].
    intros _. split; [|reflexivity].
    replace (Z.of_nat f + 1)%Z with (Z.of_nat (S f)) by lia.
    rewrite at_index_nat.
    destruct (nth_error Q (S f)) as [next|] eqn:En.
    + exists next; split; reflexivity.
    + apply nth_error_None in En. lia.
  - split; [reflexivity|]. split; [reflexivity|]. exists f.
    split; [exact Hloc|]. split; [exact Hfi|]. split; [exact Hnd|]. split; [lia|].
    intros _. split; [reflexivity|]. split; [exact Hc|reflexivity].
Qed.

(** C10. If the track ends while its url occurs nowhere in the queue,
    [handleEnded] neither advances nor throws: it finishes, playback is
    marked as not playing, and the queue and the current track stay as
    they are. *)
Theorem handleEnded_track_not_in_queue (cl : Client) (cur : Song) :
  currentSong (app cl) = Some cur ->
  (forall t, In t (playlistQueue (app cl)) -> url t <> url cur) ->
  let cl' := fst (advance (handleEnded cl) cl) in
  snd (advance (handleEnded cl) cl) = Finished /\
  isPlaying (app cl') = false /\
  playlistQueue (app cl') = playlistQueue (app cl) /\
  currentSong (app cl') = currentSong (app cl).
Proof.
  intros Hc Habsent cl'. subst cl'. unfold handleEnded. rewrite Hc. cbv zeta.
  rewrite findIndex_absent.
  - cbn. rewrite Hc. repeat split.
  - intros t Ht. apply String.eqb_neq. now apply Habsent.
Qed.

Lemma handleEnded_advances_or_stops_witness :
  playingAt playingB 1 /\
  (let Q := playlistQueue (app playingB) in
   let cl' := fst (advance (handleEnded playingB) playingB) in
   snd (advance (handleEnded playingB) playingB) = Finished /\
   playlistQueue (app cl') = Q /\
   exists f,
     locatedAt playingB f /\ (f <= 1)%nat /\
     (NoDup (map url Q) -> f = 1%nat) /\
     ((f < List.length Q - 1)%nat ->
        (exists next, nth_error Q (S f) = Some next /\ currentSong (app cl') = Some next) /\
        isPlaying (app cl') = isPlaying (app playingB)) /\
     (f = (List.length Q - 1)%nat ->
        isPlaying (app cl') = false /\
        currentSong (app cl') = currentSong (app playingB) /\
        audio cl' = audio playingB)).
Proof.
  assert (H : playingAt playingB 1) by (exists trackB, trackB; repeat split).
  split; [exact H | exact (handleEnded_advances_or_stops H)].
Defined.

Lemma handleEnded_track_not_in_queue_witness :
  currentSong (app playingOutside) = Some trackC /\
  (forall t, In t (playlistQueue (app playingOutside)) -> url t <> url trackC) /\
  (let cl' := fst (advance (handleEnded playingOutside) playingOutside) in
   snd (advance (handleEnded playingOutside) playingOutside) = Finished /\
   isPlaying (app cl') = false /\
   playlistQueue (app cl') = playlistQueue (app playingOutside) /\
   currentSong (app cl') = currentSong (app playingOutside)).
Proof.
  assert (H : forall t, In t (playlistQueue (app playingOutside)) -> url t <> url trackC).
  { intros t [<-|[<-|[]]]; discriminate. }
  split; [reflexivity|]. split; [exact H|].
  exact (@handleEnded_track_not_in_queue playingOutside trackC eq_refl H).
Defined.

(** ** Playback: seeking *)

(** [handleSeek] on a value of the seek control: the position assigned is
    [(val / 100) * duration], it lies between zero and the duration,
    [progress] becomes [val], and the same call again changes nothing. *)
Lemma handleSeek_in_range (val : Q) (cl : Client) (a : Audio) :
  audio cl = Some a ->
  (0 <= a_duration a)%Q ->
  (0 <= val)%Q -> (val <= 100)%Q ->
  let cl' := fst (advance (handleSeek val cl) cl) in
  snd (advance (handleSeek val cl) cl) = Finished /\
  (exists p, position cl' = Some p /\
             p = ((val / 100) * a_duration a)%Q /\
             (0 <= p)%Q /\ (p <= a_duration a)%Q) /\
  option_map a_duration (audio cl') = Some (a_duration a) /\
  progress (app cl') = val /\
  fst (advance (handleSeek val cl') cl') = cl'.
Proof.
  intros Ha Hd H0 H100 cl'. subst cl'. unfold handleSeek, position. rewrite Ha.
  unfold do_. cbn [bind advance fst snd]. unfold exec, updApp, updAudio.
  cbn [app audio alerts console progress]. rewrite Ha.
  cbn [option_map a_duration a_currentTime bind advance fst snd].
  unfold exec, updApp, updAudio. cbn.
  split; [reflexivity|]. split; [|split; [reflexivity|split; reflexivity]].
  eexists. split; [reflexivity|]. split; [reflexivity|].
  assert (Hf0 : (0 <= val / 100)%Q) by (apply Qle_shift_div_l; [reflexivity|lra]).
  assert (Hf1 : (val / 100 <= 1)%Q) by (apply Qle_shift_div_r; [reflexivity|lra]).
  split; [apply Qmult_le_0_compat; assumption|].
  rewrite <- (Qmult_1_l (a_duration a)) at 2.
  apply Qmult_le_compat_r; assumption.
Qed.

Ltac decide_Qle H :=
  match goal with
  | |- context [Qle_bool ?x ?y] =>
      destruct (Qle_bool x y) eqn:H;
      [apply Qle_bool_iff in H
      |assert (~ (x <= y)%Q) by (let K := fresh in intros K; apply Qle_bool_iff in K; congruence);
       clear H]
  end.

Lemma rangeValue_bounds (raw : Q) : (0 <= rangeValue raw)%Q /\ (rangeValue raw <= 100)%Q.
Proof.
  unfold rangeValue. decide_Qle H1; [split; lra|]. decide_Qle H2; split; lra.
Qed.

Lemma rangeValue_fraction (fraction : Q) :
  (rangeValue (fraction * 100) / 100 == clampUnit fraction)%Q.
Proof.
  unfold rangeValue, clampUnit.
  repeat (let H := fresh in decide_Qle H);
    try (exfalso; lra); try lra; try (field_simplify; lra); field.
Qed.

Lemma rangeValue_low (fraction : Q) :
  (fraction <= 0)%Q -> rangeValue (fraction * 100) = 0%Q.
Proof. intros H. unfold rangeValue. decide_Qle H1; [reflexivity | exfalso; lra]. Qed.

Lemma rangeValue_high (fraction : Q) :
  (1 <= fraction)%Q -> rangeValue (fraction * 100) = 100%Q.
Proof.
  intros H. unfold rangeValue. decide_Qle H1; [exfalso; lra|].
  decide_Qle H2; [reflexivity | exfalso; lra].
Qed.



(** ** Search: short queries and failed fetches *)

(** C8 as stated fails: typing the two-character query "ab" leaves the
    results that were on screen where they are. *)
Lemma short_query_does_not_clear_results :
  let r := run (onSearchChange "ab") [] (mkWorld showingA emptyRemote) in
  (String.length "ab" < 3)%nat /\
  sent r = [] /\
  searchResults (app (client (final r))) = [trackA] /\
  searchResults (app (client (final r))) <> [].
Proof. cbn. repeat split; [lia | discriminate]. Qed.

(** C8, amended.  For a query shorter than three characters the search
    input's [onChange] sends no request and finishes at once; it stores the
    query and leaves the result set and the searching flag as they
    are. *)
Theorem short_query_sends_nothing (value : string) (faults : list bool) (w : World) :
  (String.length value < 3)%nat ->
  let r := run (onSearchChange value) faults w in
  sent r = [] /\
  outcome r = Returned tt /\
  remote (final r) = remote w /\
  searchQuery (app (client (final r))) = value /\
  searchResults (app (client (final r))) = searchResults (app (client w)) /\
  isSearching (app (client (final r))) = isSearching (app (client w)).
Proof.
  intros Hlen r. subst r. unfold onSearchChange.
  destruct (Nat.ltb_spec 2 (String.length value)) as [H|_]; [lia|].
  cbn. repeat split.
Qed.

Lemma short_query_sends_nothing_witness :
  (String.length "ab" < 3)%nat /\
  (let r := run (onSearchChange "ab") [] (mkWorld showingA emptyRemote) in
   sent r = [] /\
   outcome r = Returned tt /\
   remote (final r) = remote (mkWorld showingA emptyRemote) /\
   searchQuery (app (client (final r))) = "ab" /\
   searchResults (app (client (final r)))
   = searchResults (app (client (mkWorld showingA emptyRemote))) /\
   isSearching (app (client (final r)))
   = isSearching (app (client (mkWorld showingA emptyRemote)))).
Proof.
  assert (H : (String.length "ab" < 3)%nat) by (simpl; lia).
  split; [exact H|].
  exact (@short_query_sends_nothing "ab" [] (mkWorld showingA emptyRemote) H).
Defined.

(** C9 as stated fails: a search that fails while results are on screen
    settles with those results, not with an empty set. *)
Lemma failed_search_keeps_results :
  let w := mkWorld showingA emptyRemote in
  let r := run (performSearch "abcd") [true] w in
  searchFails "abcd" [true] (remote w) /\
  isSearching (app (client (final r))) = false /\
  searchResults (app (client (final r))) = [trackA] /\
  searchResults (app (client (final r))) <> [].
Proof. cbn. repeat split; [now left | discriminate]. Qed.

(** C9, amended.  A search whose fetch fails settles: the handler returns
    normally with the searching flag off.  The failure is written to the
    console and nothing else is shown; the result set is the one that was
    there before the search. *)
Theorem failed_search_settles (term : string) (faults : list bool) (w : World) :
  searchFails term faults (remote w) ->
  let r := run (performSearch term) faults w in
  outcome r = Returned tt /\
  isSearching (app (client (final r))) = false /\
  searchResults (app (client (final r))) = searchResults (app (client w)) /\
  alerts (client (final r)) = alerts (client w) /\
  authModalOpen (app (client (final r))) = authModalOpen (app (client w)) /\
  (exists msg, console (client (final r)) = console (client w) ++ [msg]).
Proof.
  intros Hfail r. subst r. unfold performSearch, searchFails in *.
  cbn. destruct (hd false faults) eqn:F1.
  - cbn. repeat split. eexists; reflexivity.
  - cbn. destruct (hd false (tl faults)) eqn:F2.
    + cbn. repeat split. eexists; reflexivity.
    + destruct (body (catalog (remote w) term)) as [[|[l|]]|] eqn:B;
        try (cbn; repeat split; eexists; reflexivity).
      all: exfalso; destruct Hfail as [H|[H|[H|H]]]; discriminate.
Qed.

Lemma failed_search_settles_witness :
  searchFails "abcd" [true] emptyRemote /\
  (let w := mkWorld showingA emptyRemote in
   let r := run (performSearch "abcd") [true] w in
   outcome r = Returned tt /\
   isSearching (app (client (final r))) = false /\
   searchResults (app (client (final r))) = searchResults (app (client w)) /\
   alerts (client (final r)) = alerts (client w) /\
   authModalOpen (app (client (final r))) = authModalOpen (app (client w)) /\
   (exists msg, console (client (final r)) = console (client w) ++ [msg])).
Proof.
  assert (H : searchFails "abcd" [true] emptyRemote) by (left; reflexivity).
  split; [exact H|].
  exact (@failed_search_settles "abcd" [true] (mkWorld showingA emptyRemote) H).
Defined.

(** ** Search: responses that arrive out of order *)

(** *** The pool of suspended handlers *)

Lemma task_of_cons (n m : nat) (t : Task) (l : list (nat * Task)) :
  task_of n ((m, t) :: l) = if Nat.eqb m n then Some t else task_of n l.
Proof.
  unfold task_of. simpl. destruct (Nat.eqb m n); [reflexivity|].
  destruct (take_task n l) as [[t' rest]|]; reflexivity.
Qed.

Lemma task_of_app_hit (n : nat) (t : Task) (l l' : list (nat * Task)) :
  task_of n l = Some t -> task_of n (l ++ l') = Some t.
Proof.
  induction l as [|[m u] l IH]; [discriminate|].
  rewrite <- app_comm_cons, !task_of_cons. destruct (Nat.eqb m n); auto.
Qed.

Lemma task_of_app_fresh (n : nat) (t : Task) (l : list (nat * Task)) :
  ~ In n (numbers l) -> task_of n (l ++ [(n, t)]) = Some t.
Proof.
  induction l as [|[m u] l IH]; intros Hn;
    [rewrite app_nil_l | rewrite <- app_comm_cons]; rewrite task_of_cons.
  - now rewrite Nat.eqb_refl.
  - destruct (Nat.eqb_spec m n) as [->|_].
    + exfalso. apply Hn. now left.
    + apply IH. intros H. apply Hn. now right.
Qed.

Lemma take_task_rest (m : nat) (l rest : list (nat * Task)) (t : Task) :
  take_task m l = Some (t, rest) ->
  In m (numbers l) /\
  (forall k, In k (numbers rest) -> In k (numbers l)) /\
  (NoDup (numbers l) -> NoDup (numbers rest) /\ ~ In m (numbers rest)) /\
  (forall n, n <> m -> task_of n rest = task_of n l).
Proof.
  revert rest; induction l as [|[k u] l IH]; intros rest H; [discriminate|].
  simpl in H. destruct (Nat.eqb_spec k m) as [->|Hkm].
  - injection H as <- <-. repeat split.
    + now left.
    + intros k Hk. now right.
    + now inversion H.
    + now inversion H.
    + intros n Hn. rewrite task_of_cons.
      destruct (Nat.eqb_spec m n); [congruence|reflexivity].
  - destruct (take_task m l) as [[t' rest']|] eqn:E; [|discriminate].
    injection H as <- <-.
    destruct (IH rest' eq_refl) as (Hin & Hsub & Hnd & Hother).
    repeat split.
    + now right.
    + intros j [<-|Hj]; [now left | right; auto].
    + simpl in H. inversion H as [|? ? Hk Hl]; subst. destruct (Hnd Hl) as [Hr _].
      simpl. constructor; [intros Hc; apply Hk; auto | exact Hr].
    + simpl in H. inversion H as [|? ? Hk Hl]; subst. destruct (Hnd Hl) as [_ Hm].
      simpl. intros [E'|Hin']; [congruence | auto].
    + intros n Hn. rewrite !task_of_cons. destruct (Nat.eqb k n); auto.
Qed.

Lemma task_of_take (n : nat) (l : list (nat * Task)) (t : Task) :
  task_of n l = Some t -> exists rest, take_task n l = Some (t, rest).
Proof.
  unfold task_of. destruct (take_task n l) as [[t' rest]|]; [|discriminate].
  simpl. intros [= ->]. now exists rest.
Qed.

Lemma numbers_park (n : nat) (st : Status) (l : list (nat * Task)) (k : nat) :
  In k (numbers (park n st l)) -> In k (numbers l) \/ k = n.
Proof.
  destruct st; simpl; auto. unfold numbers. rewrite map_app, in_app_iff. simpl.
  intros [H|[H|[]]]; auto.
Qed.

Lemma NoDup_park (n : nat) (st : Status) (l : list (nat * Task)) :
  NoDup (numbers l) -> ~ In n (numbers l) -> NoDup (numbers (park n st l)).
Proof.
  intros Hnd Hn. destruct st; simpl; auto. unfold numbers. rewrite map_app. simpl.
  apply NoDup_app; [exact Hnd | repeat constructor; auto | ].
  intros a Ha [<-|[]]. contradiction.
Qed.

Lemma task_of_park (n m : nat) (st : Status) (l : list (nat * Task)) (t : Task) :
  task_of n l = Some t -> task_of n (park m st l) = Some t.
Proof. destruct st; simpl; auto. apply task_of_app_hit. Qed.

Lemma serve_catalog {X} (r : Req X) (fault : bool) (rm : Remote) :
  catalog (snd (serve r fault rm)) = catalog rm.
Proof.
  destruct r; destruct fault; simpl; try reflexivity;
    destruct playlistId; reflexivity.
Qed.

Lemma wf_step (e : Event) (s : Sys) : wf s -> wf (step e s).
Proof.
  intros [Hnd Hle]. destruct e as [h|n fault]; simpl.
  - split; simpl.
    + apply NoDup_park; [exact Hnd|]. intros H. apply Hle in H. lia.
    + intros m Hm. apply numbers_park in Hm. destruct Hm as [Hm| ->]; [|lia].
      apply Hle in Hm. lia.
  - destruct (take_task n (pool s)) as [[[X r k] rest]|] eqn:E; [|now split].
    destruct (take_task_rest _ _ E) as (Hin & Hsub & Hnd' & _).
    destruct (Hnd' Hnd) as [Hr Hn]. split; simpl.
    + now apply NoDup_park.
    + intros m Hm. apply numbers_park in Hm. destruct Hm as [Hm| ->]; auto.
Qed.

(** An event that is not an answer to handler [n] leaves handler [n]
    suspended where it was, and leaves the catalog alone. *)
(** Every state reached from one with no handler pending is well
    formed. *)
Lemma wf_steps (es : list Event) (s : Sys) : wf s -> wf (steps es s).
Proof.
  revert s; induction es as [|e es IH]; intros s H; [exact H|].
  unfold steps in *. simpl. apply IH. now apply wf_step.
Qed.

Lemma wf_idle (cl : Client) (rm : Remote) (d : nat) : wf (mkSys cl rm [] d).
Proof. split; [constructor | intros m []]. Qed.

Lemma step_elsewhere (e : Event) (s : Sys) (n : nat) (t : Task) :
  settles n e = false -> task_of n (pool s) = Some t ->
  task_of n (pool (step e s)) = Some t /\
  catalog (s_remote (step e s)) = catalog (s_remote s).
Proof.
  intros He Ht. destruct e as [h|m fault]; simpl in *.
  - split; [now apply task_of_park | reflexivity].
  - destruct (take_task m (pool s)) as [[[X r k] rest]|] eqn:E; [|now split].
    destruct (take_task_rest _ _ E) as (_ & _ & _ & Hother).
    simpl. split; [|apply serve_catalog].
    apply task_of_park. rewrite Hother; [exact Ht|].
    intros ->. now rewrite Nat.eqb_refl in He.
Qed.

Lemma steps_elsewhere (es : list Event) (s : Sys) (n : nat) (t : Task) :
  forallb (fun e => negb (settles n e)) es = true ->
  wf s -> task_of n (pool s) = Some t ->
  wf (steps es s) /\
  task_of n (pool (steps es s)) = Some t /\
  catalog (s_remote (steps es s)) = catalog (s_remote s).
Proof.
  revert s; induction es as [|e es IH]; intros s Hes Hwf Ht.
  - split; [exact Hwf | split; [exact Ht | reflexivity]].
  - simpl in Hes. apply andb_prop in Hes. destruct Hes as [He Hes].
    apply negb_true_iff in He.
    destruct (@step_elsewhere e s n t He Ht) as [Ht' Hc].
    destruct (IH (step e s) Hes (@wf_step e s Hwf) Ht') as (Hw & Ht'' & Hc').
    unfold steps in *. simpl.
    split; [exact Hw | split; [exact Ht'' | congruence]].
Qed.

(** *** The two suspension points of [performSearch] *)

Lemma performSearch_suspends (term : string) :
  performSearch term = Do (setIsSearching true) (Await (fetch_search term) afterFetch).
Proof. reflexivity. Qed.

Lemma afterFetch_suspends (r : Response) :
  afterFetch (Fulfilled r) = Await (res_json r) afterJson.
Proof. reflexivity. Qed.

Lemma advance_onSearchChange (term : string) (cl : Client) :
  2 < String.length term ->
  advance (onSearchChange term) cl
  = (exec (setIsSearching true) (exec (setSearchQuery term) cl),
     Waiting (Suspended (fetch_search term) afterFetch)).
Proof.
  intros H. unfold onSearchChange.
  destruct (Nat.ltb_spec 2 (String.length term)) as [_|H']; [|lia].
  rewrite performSearch_suspends. reflexivity.
Qed.

Lemma step_settle (n : nat) (fault : bool) (s : Sys)
      (X : Type) (r : Req X) (k : X -> Proc unit) (rest : list (nat * Task)) :
  take_task n (pool s) = Some (Suspended r k, rest) ->
  step (Settle n fault) s
  = mkSys (fst (advance (k (fst (serve r fault (s_remote s)))) (s_client s)))
          (snd (serve r fault (s_remote s)))
          (park n (snd (advance (k (fst (serve r fault (s_remote s)))) (s_client s))) rest)
          (dispatched s).
Proof. intros H. unfold step. rewrite H. reflexivity. Qed.

(** *** Two searches answered in reverse order *)

(** C3 as stated fails: no dispatch number is kept or compared.  When
    the answer to the first of two searches arrives after the answer to the
    second, the results on screen end up being those of the first search,
    while the query on screen is the second one. *)
Lemma stale_response_overwrites_newer :
  let mid := steps (firstn 4 reversedArrival) sys0 in
  let s := steps reversedArrival sys0 in
  dispatched s = 2 /\
  searchResults (app (s_client mid)) = [mapSong trackB] /\
  searchResults (app (s_client s)) = [mapSong trackA] /\
  searchQuery (app (s_client s)) = "abcd" /\
  searchResults (app (s_client s)) <> searchResults (app (s_client mid)).
Proof. cbn. repeat split. discriminate. Qed.

(** C3, amended.  Every answer is applied when it arrives, whatever was
    dispatched since.  Take any well-formed state, dispatch a search for a
    term of more than two characters whose catalog entry carries a [songs]
    list, and let any events at all happen before its fetch settles and
    before its body is read, later searches and their answers included:
    when the body is read, the result set becomes that search's songs and
    the searching flag is turned off. *)
Theorem search_response_applied_on_arrival
        (s : Sys) (term : string) (l : list Song) (es1 es2 : list Event) :
  wf s ->
  2 < String.length term ->
  body (catalog (s_remote s) term) = Some (JObject (Some l)) ->
  let n := S (dispatched s) in
  forallb (fun e => negb (settles n e)) es1 = true ->
  forallb (fun e => negb (settles n e)) es2 = true ->
  let s' :=
    step (Settle n false)
      (steps es2
         (step (Settle n false)
            (steps es1 (step (Fire (fun _ => onSearchChange term)) s)))) in
  searchResults (app (s_client s')) = map mapSong l /\
  isSearching (app (s_client s')) = false.
Proof.
  intros Hwf Hlen Hcat n Hes1 Hes2.
  (* dispatch *)
  set (s1 := step (Fire (fun _ => onSearchChange term)) s).
  assert (Hwf1 : wf s1) by (apply wf_step; exact Hwf).
  assert (Ht1 : task_of n (pool s1) = Some (Suspended (fetch_search term) afterFetch)).
  { unfold s1, step. rewrite advance_onSearchChange by exact Hlen.
    cbn [fst snd pool park]. apply task_of_app_fresh. intros Hin. apply (proj2 Hwf) in Hin. lia. }
  assert (Hc1 : catalog (s_remote s1) = catalog (s_remote s)) by reflexivity.
  (* other events, then the fetch settles *)
  destruct (@steps_elsewhere es1 s1 n _ Hes1 Hwf1 Ht1) as (Hwf2 & Ht2 & Hc2).
  set (s2 := steps es1 s1) in *.
  destruct (task_of_take _ _ Ht2) as [rest2 Htake2].
  destruct (take_task_rest _ _ Htake2) as (_ & _ & Hnd2 & _).
  destruct (Hnd2 (proj1 Hwf2)) as [_ Hfresh2].
  set (s3 := step (Settle n false) s2).
  assert (Hwf3 : wf s3) by (apply wf_step; exact Hwf2).
  assert (Ht3 : task_of n (pool s3)
                = Some (Suspended (res_json (catalog (s_remote s) term)) afterJson)).
  { unfold s3. rewrite (@step_settle n false s2 _ _ _ _ Htake2).
    cbn [pool serve fst snd]. rewrite Hc2, Hc1, afterFetch_suspends.
    cbn [advance fst snd park]. now apply task_of_app_fresh. }
  assert (Hc3 : catalog (s_remote s3) = catalog (s_remote s)).
  { unfold s3. rewrite (@step_settle n false s2 _ _ _ _ Htake2).
    cbn [s_remote serve fst snd]. congruence. }
  (* other events, then the body is read *)
  destruct (@steps_elsewhere es2 s3 n _ Hes2 Hwf3 Ht3) as (Hwf4 & Ht4 & Hc4).
  set (s4 := steps es2 s3) in *.
  destruct (task_of_take _ _ Ht4) as [rest4 Htake4].
  intros s'. subst s'. fold s1. fold s2. fold s3. fold s4.
  rewrite (@step_settle n false s4 _ _ _ _ Htake4).
  cbn [s_client serve fst snd]. rewrite Hcat.
  split; reflexivity.
Qed.

Lemma search_response_applied_on_arrival_witness :
  wf sys0 /\
  2 < String.length "abc" /\
  body (catalog (s_remote sys0) "abc") = Some (JObject (Some [trackA])) /\
  (let n := S (dispatched sys0) in
   let es1 := [Fire (fun _ => onSearchChange "abcd"); Settle 2 false; Settle 2 false] in
   forallb (fun e => negb (settles n e)) es1 = true /\
   forallb (fun e => negb (settles n e)) [] = true /\
   (let s' :=
      step (Settle n false)
        (steps []
           (step (Settle n false)
              (steps es1 (step (Fire (fun _ => onSearchChange "abc")) sys0)))) in
    searchResults (app (s_client s')) = map mapSong [trackA] /\
    isSearching (app (s_client s')) = false)).
Proof.
  assert (Hwf : wf sys0).
  { split; [constructor | intros m []]. }
  assert (Hlen : 2 < String.length "abc") by (simpl; lia).
  split; [exact Hwf|]. split; [exact Hlen|]. split; [reflexivity|].
  split; [reflexivity|]. split; [reflexivity|].
  exact (@search_response_applied_on_arrival sys0 "abc" [trackA]
           [Fire (fun _ => onSearchChange "abcd"); Settle 2 false; Settle 2 false] []
           Hwf Hlen eq_refl eq_refl eq_refl).
Defined.

(** ** Library: the verification gate *)

(** C1 as stated fails for deletion and for adding a song: neither the
    delete control's handler nor [dbService.addSongToPlaylist] looks at the
    session.  Invoked for an anonymous visitor they go through: the
    playlist is removed remotely and locally, the song row is inserted, and
    no error is raised. *)
Lemma delete_and_add_are_not_guarded :
  let cl := signedIn None [] [playlist7] in
  let w := mkWorld cl remoteWithPlaylist7 in
  let del := run (deletePlaylistClick true playlist7) [] w in
  let add := run (dbService.addSongToPlaylist (IdNum 7) trackA) [] w in
  sessionOf (user (app cl)) = Anonymous /\
  outcome del = Returned tt /\
  playlists (app (client (final del))) = [] /\
  playlists (app (client (final del))) <> playlists (app cl) /\
  user_playlists (remote (final del)) = [] /\
  outcome add = Returned tt /\
  playlist_songs (remote (final add)) = [mkPlaylistSongRow 8 7 trackA].
Proof. cbn. repeat split. discriminate. Qed.

(** C1, amended.  In every session state other than verified, [toggleLike]
    and [createNewPlaylist] are refused before anything is sent: the
    sign-in dialog opens for an anonymous visitor, a "please verify"
    message is shown to an unverified user, and the liked songs, the
    playlists and the remote tables stay as they are.  Deleting a playlist
    is gated in the view only: without a verified session no playlist, and
    so no delete control, is listed. *)
Theorem unverified_session_is_refused
        (cl : Client) (rm : Remote) (song : Song) (answer : option string)
        (faults : list bool) :
  sessionOf (user (app cl)) <> AuthenticatedVerified ->
  let w := mkWorld cl rm in
  refused "Please verify your email to like songs." w
          (run (toggleLike song cl) faults w) /\
  refused "Please verify your email to create playlists." w
          (run (createNewPlaylist answer cl) faults w) /\
  listedPlaylists (app cl) = [].
Proof.
  intros Hs w. subst w.
  unfold refused, toggleLike, createNewPlaylist, listedPlaylists, isVerified.
  cbn [client app remote]. unfold sessionOf in *.
  destruct (user (app cl)) as [u|].
  - destruct (truthy (email_confirmed_at u)); [congruence|].
    cbn. repeat split.
  - cbn. repeat split.
Qed.

Lemma unverified_session_is_refused_witness :
  sessionOf (user (app (signedIn (Some bob) [] []))) <> AuthenticatedVerified /\
  (let cl := signedIn (Some bob) [] [] in
   let w := mkWorld cl emptyRemote in
   refused "Please verify your email to like songs." w
           (run (toggleLike trackA cl) [] w) /\
   refused "Please verify your email to create playlists." w
           (run (createNewPlaylist (Some "Mix") cl) [] w) /\
   listedPlaylists (app cl) = []).
Proof.
  assert (H : sessionOf (user (app (signedIn (Some bob) [] []))) <> AuthenticatedVerified)
    by (cbn; discriminate).
  split; [exact H|].
  exact (@unverified_session_is_refused (signedIn (Some bob) [] []) emptyRemote trackA
           (Some "Mix") [] H).
Defined.

(** ** Library: liking and unliking *)

(** [toggleLike] for a verified user when both remote calls go through:
    the lookup and the write are sent while the client stays as it was, and
    the local list is changed afterwards, by what the lookup found. *)
Lemma toggleLike_run (song : Song) (cl cl0 : Client) (u : User) (rm : Remote)
      (faults : list bool) :
  user (app cl) = Some u ->
  truthy (email_confirmed_at u) = true ->
  hd false faults = false ->
  hd false (tl faults) = false ->
  run (toggleLike song cl) faults (mkWorld cl0 rm)
  = match map lr_id (liked_matching (u_id u) (url song) (liked_songs rm)) with
    | [rowId] =>
        mkRun (mkWorld (exec (setLikedSongs (withoutUrl song)) cl0)
                       (snd (serve (liked_songs_delete rowId) false rm)))
              (Returned tt) [cl0; cl0]
              [anyReq (liked_songs_select_single (u_id u) (url song));
               anyReq (liked_songs_delete rowId)]
    | _ =>
        mkRun (mkWorld (exec (setLikedSongs (cons song)) cl0)
                       (snd (serve (liked_songs_insert (u_id u) song) false rm)))
              (Returned tt) [cl0; cl0]
              [anyReq (liked_songs_select_single (u_id u) (url song));
               anyReq (liked_songs_insert (u_id u) song)]
    end.
Proof.
  intros Hu Hv F1 F2. unfold toggleLike. rewrite Hu, Hv. cbn.
  rewrite F1. cbn.
  destruct (map lr_id (liked_matching (u_id u) (url song) (liked_songs rm)))
    as [|rowId [|rowId' more]]; cbn; rewrite F2; reflexivity.
Qed.

(** C2 as stated fails.  With nothing liked, a lookup that succeeds and an
    insert that fails in transit: while the two requests are pending the
    local list is still empty (no flip before the write), and once they
    have returned the track is in the local list although the remote table
    did not change; nothing is reverted and no error is shown or
    logged. *)
Lemma toggleLike_not_optimistic_and_not_reverted :
  let cl := signedIn (Some alice) [] [] in
  let w := mkWorld cl (likedRemote [] 1) in
  let r := run (toggleLike trackA cl) [false; true] w in
  map (fun c => likedSongs (app c)) (seen r) = [[]; []] /\
  liked_songs (remote (final r)) = [] /\
  likedSongs (app (client (final r))) = [trackA] /\
  likedSongs (app (client (final r))) <> likedSongs (app cl) /\
  outcome r = Returned tt /\
  alerts (client (final r)) = [] /\
  console (client (final r)) = [].
Proof. cbn. repeat split. discriminate. Qed.

(** C2, amended.  [toggleLike] is not optimistic.  For a verified user it
    first asks the remote side (a lookup by url, then a delete when exactly
    one row was found and an insert otherwise), and while these two
    requests are pending the liked songs are the ones from before the
    call.  When both requests have gone through, the local list is changed
    by what the remote side did: the track is put in front when a row was
    inserted, and every entry with the track's url is filtered out when a
    row was deleted. *)
Theorem toggleLike_remote_first
        (song : Song) (cl : Client) (u : User) (rm : Remote) (faults : list bool) :
  user (app cl) = Some u ->
  truthy (email_confirmed_at u) = true ->
  hd false faults = false ->
  hd false (tl faults) = false ->
  let r := run (toggleLike song cl) faults (mkWorld cl rm) in
  let found := map lr_id (liked_matching (u_id u) (url song) (liked_songs rm)) in
  outcome r = Returned tt /\
  seen r = [cl; cl] /\
  (forall rowId, found = [rowId] ->
     sent r = [anyReq (liked_songs_select_single (u_id u) (url song));
               anyReq (liked_songs_delete rowId)] /\
     liked_songs (remote (final r))
     = filter (fun row => negb (Nat.eqb (lr_id row) rowId)) (liked_songs rm) /\
     likedSongs (app (client (final r))) = withoutUrl song (likedSongs (app cl))) /\
  (List.length found <> 1 ->
     sent r = [anyReq (liked_songs_select_single (u_id u) (url song));
               anyReq (liked_songs_insert (u_id u) song)] /\
     liked_songs (remote (final r))
     = liked_songs rm ++ [mkLikedRow (next_id rm) (u_id u) song] /\
     likedSongs (app (client (final r))) = song :: likedSongs (app cl)).
Proof.
  intros Hu Hv F1 F2 r found. subst r.
  rewrite (@toggleLike_run song cl cl u rm faults Hu Hv F1 F2). fold found.
  destruct found as [|rowId [|rowId' more]]; cbn.
  - repeat split; intros; try discriminate; reflexivity.
  - repeat split; intros; try (exfalso; lia); try reflexivity.
    all: match goal with H : [_] = [_] |- _ => injection H as <- end; reflexivity.
  - repeat split; intros; try discriminate; reflexivity.
Qed.

Lemma toggleLike_remote_first_witness :
  user (app (signedIn (Some alice) [trackB] [])) = Some alice /\
  truthy (email_confirmed_at alice) = true /\
  hd false (@nil bool) = false /\
  hd false (tl (@nil bool)) = false /\
  (let cl := signedIn (Some alice) [trackB] [] in
   let rm := likedRemote [mkLikedRow 1 "u1" trackB] 2 in
   let r := run (toggleLike trackA cl) [] (mkWorld cl rm) in
   let found := map lr_id (liked_matching (u_id alice) (url trackA) (liked_songs rm)) in
   outcome r = Returned tt /\
   seen r = [cl; cl] /\
   (forall rowId, found = [rowId] ->
      sent r = [anyReq (liked_songs_select_single (u_id alice) (url trackA));
                anyReq (liked_songs_delete rowId)] /\
      liked_songs (remote (final r))
      = filter (fun row => negb (Nat.eqb (lr_id row) rowId)) (liked_songs rm) /\
      likedSongs (app (client (final r))) = withoutUrl trackA (likedSongs (app cl))) /\
   (List.length found <> 1 ->
      sent r = [anyReq (liked_songs_select_single (u_id alice) (url trackA));
                anyReq (liked_songs_insert (u_id alice) trackA)] /\
      liked_songs (remote (final r))
      = liked_songs rm ++ [mkLikedRow (next_id rm) (u_id alice) trackA] /\
      likedSongs (app (client (final r))) = trackA :: likedSongs (app cl))).
Proof.
  split; [reflexivity|]. split; [reflexivity|]. split; [reflexivity|].
  split; [reflexivity|].
  exact (@toggleLike_remote_first trackA (signedIn (Some alice) [trackB] []) alice
           (likedRemote [mkLikedRow 1 "u1" trackB] 2) [] eq_refl eq_refl eq_refl eq_refl).
Defined.

(** *** Liking twice *)

Section FilterFacts.
Context {A : Type} (f g : A -> bool).

Lemma existsb_false_filter (l : list A) :
  existsb f l = false -> filter (fun x => negb (f x)) l = l.
Proof.
  induction l as [|x l IH]; simpl; [reflexivity|].
  intros H. apply orb_false_elim in H. destruct H as [Hx Hl].
  rewrite Hx. simpl. now rewrite IH.
Qed.

Lemma existsb_filter_negb (l : list A) :
  existsb f (filter (fun x => negb (f x)) l) = false.
Proof.
  induction l as [|x l IH]; simpl; [reflexivity|].
  destruct (f x) eqn:E; simpl; [exact IH|]. now rewrite E, IH.
Qed.

Lemma filter_filter_swap (l : list A) :
  filter f (filter g l) = filter g (filter f l).
Proof.
  induction l as [|x l IH]; simpl; [reflexivity|].
  destruct (g x) eqn:G, (f x) eqn:F; simpl; rewrite ?G, ?F, IH; reflexivity.
Qed.
End FilterFacts.

Lemma liked_matching_app (uid u : string) (l l' : list LikedRow) :
  liked_matching uid u (l ++ l') = liked_matching uid u l ++ liked_matching uid u l'.
Proof. apply filter_app. Qed.

Lemma liked_matching_new (uid : string) (song : Song) (n : nat) :
  liked_matching uid (url song) [mkLikedRow n uid song] = [mkLikedRow n uid song].
Proof. unfold liked_matching. simpl. now rewrite !String.eqb_refl. Qed.

Lemma liked_matching_filter (uid u : string) (g : LikedRow -> bool) (l : list LikedRow) :
  liked_matching uid u (filter g l) = filter g (liked_matching uid u l).
Proof. apply filter_filter_swap. Qed.

(** C4 as stated fails for a track that is liked but is not the most
    recent one: with liked songs [A; B], unliking and liking [B] again
    gives [B; A].  The membership of [B] is restored, the order is
    not. *)
Lemma toggleLike_twice_reorders :
  let cl := signedIn (Some alice) [trackA; trackB] [] in
  let r1 := run (toggleLike trackB cl) [] (mkWorld cl remoteOfAB) in
  let r2 := run (toggleLike trackB (client (final r1))) [] (final r1) in
  likedSongs (app (client (final r1))) = [trackA] /\
  likedSongs (app (client (final r2))) = [trackB; trackA] /\
  isLiked (app (client (final r2))) trackB = isLiked (app cl) trackB /\
  likedSongs (app (client (final r2))) <> likedSongs (app cl).
Proof. cbn. repeat split. discriminate. Qed.

(** C4, amended.  Let the local list and the remote table agree on whether
    the track is liked, the table holding at most one row for it, and let
    all remote calls go through.  Then [toggleLike] twice in a row flips
    the membership and flips it back, and the remote table again holds as
    many rows for the track as before.  The list itself comes back
    unchanged when the track was not liked; when it was liked, the track
    ends up in front of the other entries, which keep their order. *)
Theorem toggleLike_twice
        (song : Song) (cl : Client) (u : User) (rm : Remote) :
  user (app cl) = Some u ->
  truthy (email_confirmed_at u) = true ->
  let rows := liked_matching (u_id u) (url song) (liked_songs rm) in
  List.length rows <= 1 ->
  isLiked (app cl) song = negb (Nat.eqb (List.length rows) 0) ->
  let r1 := run (toggleLike song cl) [] (mkWorld cl rm) in
  let cl1 := client (final r1) in
  let r2 := run (toggleLike song cl1) [] (final r1) in
  let cl2 := client (final r2) in
  outcome r1 = Returned tt /\ outcome r2 = Returned tt /\
  isLiked (app cl1) song = negb (isLiked (app cl) song) /\
  isLiked (app cl2) song = isLiked (app cl) song /\
  likedSongs (app cl2)
  = (if isLiked (app cl) song
     then song :: withoutUrl song (likedSongs (app cl))
     else likedSongs (app cl)) /\
  List.length (liked_matching (u_id u) (url song) (liked_songs (remote (final r2))))
  = List.length rows.
Proof.
  intros Hu Hv rows Hrows Hagree r1 cl1 r2 cl2.
  assert (E1 := @toggleLike_run song cl cl u rm [] Hu Hv eq_refl eq_refl).
  fold r1 in E1. fold rows in E1.
  destruct rows as [|row [|row' more]] eqn:Erows; [| |simpl in Hrows; lia].
  - (* not liked: a row is inserted, then deleted *)
    simpl in Hagree. simpl map in E1.
    assert (Hfound : map lr_id (liked_matching (u_id u) (url song)
                                  (liked_songs (remote (final r1)))) = [next_id rm]).
    { rewrite E1. cbn [final remote serve snd liked_songs].
      rewrite liked_matching_app, liked_matching_new. fold rows. now rewrite Erows. }
    assert (E2 := @toggleLike_run song cl1 cl1 u (remote (final r1)) []).
    rewrite Hfound in E2.
    assert (Hw : mkWorld cl1 (remote (final r1)) = final r1) by (now destruct (final r1)).
    rewrite Hw in E2. fold r2 in E2.
    assert (Hu1 : user (app cl1) = Some u) by (unfold cl1; now rewrite E1).
    specialize (E2 Hu1 Hv eq_refl eq_refl).
    unfold cl2. rewrite E2. unfold cl1 in *. rewrite E1.
    cbn [final outcome client remote exec updApp app likedSongs serve snd liked_songs].
    unfold isLiked in *. cbn [likedSongs].
    rewrite Hagree.
    split; [reflexivity|]. split; [reflexivity|].
    split; [simpl; now rewrite String.eqb_refl|].
    unfold withoutUrl at 1 2. simpl filter. rewrite String.eqb_refl. simpl negb.
    cbv iota. fold (withoutUrl song (likedSongs (app cl))).
    unfold withoutUrl. rewrite (existsb_false_filter _ _ Hagree).
    split; [exact Hagree|]. split; [reflexivity|].
    rewrite liked_matching_filter, liked_matching_app, liked_matching_new.
    fold rows. rewrite Erows. simpl. now rewrite Nat.eqb_refl.
  - (* liked: the row is deleted, then a new one is inserted *)
    simpl in Hagree. simpl map in E1.
    assert (Hfound : map lr_id (liked_matching (u_id u) (url song)
                                  (liked_songs (remote (final r1)))) = []).
    { rewrite E1. cbn [final remote serve snd liked_songs].
      rewrite liked_matching_filter. fold rows. rewrite Erows.
      simpl. now rewrite Nat.eqb_refl. }
    assert (E2 := @toggleLike_run song cl1 cl1 u (remote (final r1)) []).
    rewrite Hfound in E2.
    assert (Hw : mkWorld cl1 (remote (final r1)) = final r1) by (now destruct (final r1)).
    rewrite Hw in E2. fold r2 in E2.
    assert (Hu1 : user (app cl1) = Some u) by (unfold cl1; now rewrite E1).
    specialize (E2 Hu1 Hv eq_refl eq_refl).
    unfold cl2. rewrite E2. unfold cl1 in *. rewrite E1.
    cbn [final outcome client remote exec updApp app likedSongs serve snd liked_songs].
    unfold isLiked in *. cbn [likedSongs].
    rewrite Hagree.
    split; [reflexivity|]. split; [reflexivity|].
    split; [unfold withoutUrl; now rewrite existsb_filter_negb|].
    split; [simpl; now rewrite String.eqb_refl|].
    split; [reflexivity|].
    rewrite liked_matching_app, liked_matching_new, liked_matching_filter.
    fold rows. rewrite Erows. simpl. now rewrite Nat.eqb_refl.
Qed.

Lemma toggleLike_twice_witness :
  user (app (signedIn (Some alice) [trackA; trackB] [])) = Some alice /\
  truthy (email_confirmed_at alice) = true /\
  (let cl := signedIn (Some alice) [trackA; trackB] [] in
   let rows := liked_matching (u_id alice) (url trackB) (liked_songs remoteOfAB) in
   List.length rows <= 1 /\
   isLiked (app cl) trackB = negb (Nat.eqb (List.length rows) 0) /\
   (let r1 := run (toggleLike trackB cl) [] (mkWorld cl remoteOfAB) in
    let cl1 := client (final r1) in
    let r2 := run (toggleLike trackB cl1) [] (final r1) in
    let cl2 := client (final r2) in
    outcome r1 = Returned tt /\ outcome r2 = Returned tt /\
    isLiked (app cl1) trackB = negb (isLiked (app cl) trackB) /\
    isLiked (app cl2) trackB = isLiked (app cl) trackB /\
    likedSongs (app cl2)
    = (if isLiked (app cl) trackB
       then trackB :: withoutUrl trackB (likedSongs (app cl))
       else likedSongs (app cl)) /\
    List.length (liked_matching (u_id alice) (url trackB)
                   (liked_songs (remote (final r2))))
    = List.length rows)).
Proof.
  assert (H1 : List.length (liked_matching (u_id alice) (url trackB)
                              (liked_songs remoteOfAB)) <= 1) by (simpl; lia).
  split; [reflexivity|]. split; [reflexivity|]. split; [exact H1|].
  split; [reflexivity|].
  exact (@toggleLike_twice trackB (signedIn (Some alice) [trackA; trackB] []) alice
           remoteOfAB eq_refl eq_refl H1 eq_refl).
Defined.

(** ** Library: synchronisation *)

(** C7 as stated fails.  Signing in with one liked song and one playlist
    stored remotely: while the liked songs are being fetched the client
    already shows the new profile next to an empty list of liked songs; and
    when that fetch fails, the sync ends in this very state, with the
    profile set and the liked songs and playlists never filled in. *)
Lemma fetchData_shows_partial_state :
  let cl := signedIn (Some alice) [] [] in
  let w := mkWorld cl aliceRemote in
  let good := run (fetchData alice) [] w in
  let bad := run (fetchData alice) [false; true] w in
  likedSongs (app (client (final good))) = [trackA] /\
  (exists c, In c (seen good) /\
             profile (app c) = Some aliceProfile /\ likedSongs (app c) = []) /\
  profile (app (client (final bad))) = Some aliceProfile /\
  likedSongs (app (client (final bad))) = [] /\
  playlists (app (client (final bad))) = [] /\
  client (final bad) <> cl /\
  client (final bad) <> client (final good).
Proof.
  cbn. split; [reflexivity|]. split.
  - eexists. split; [right; left; reflexivity|]. split; reflexivity.
  - repeat split; discriminate.
Qed.

Lemma noFaults_hd (faults : list bool) : noFaults faults -> hd false faults = false.
Proof.
  destruct faults as [|[] t]; unfold noFaults; simpl; intros H;
    [reflexivity | discriminate | reflexivity].
Qed.

Lemma noFaults_tl (faults : list bool) : noFaults faults -> noFaults (tl faults).
Proof.
  destruct faults as [|[] t]; unfold noFaults; simpl; intros H;
    [reflexivity | discriminate | exact H].
Qed.

Ltac contradict_faults H :=
  pose proof (noFaults_hd H);
  pose proof (noFaults_hd (noFaults_tl H));
  pose proof (noFaults_hd (noFaults_tl (noFaults_tl H)));
  pose proof (noFaults_hd (noFaults_tl (noFaults_tl (noFaults_tl H))));
  congruence.

Ltac next_request :=
  match goal with
  | |- context [hd false ?l] => let F := fresh "F" in destruct (hd false l) eqn:F; cbn
  end.

Ltac sync_done :=
  split; [reflexivity|]; split; [split; reflexivity|]; split; [reflexivity|];
  let H := fresh "Hnf" in
  intros H; first [contradict_faults H | cbn; auto 8].

(** C7, amended.  [fetchData] replaces the library part by part and not
    atomically.  It sends its requests one after the other: the read of
    the profile; the upsert of a new profile where the read found no single
    row; the read of the liked songs; the read of the playlists.  The
    profile is set once it has been read or created, the liked songs and
    the playlists each as soon as they have been read, so that the states
    shown while a request is pending are exactly the stages reached so far.
    It never throws.  When no request fails, every request is sent and all
    three parts end up set, nothing being logged.  When a request fails,
    no request is sent after it, the failure is logged once, and the client
    stays at the stage it had reached: the parts set so far stay in place
    and the others keep their previous values. *)
Theorem fetchData_incremental
        (currentUser : User) (cl : Client) (rm : Remote) (faults : list bool) :
  let r := run (fetchData currentUser) faults (mkWorld cl rm) in
  let reqs := syncRequests currentUser rm in
  outcome r = Returned tt /\
  match firstFault (List.length reqs) faults with
  | None =>
      sent r = reqs /\
      client (final r) = stage 3 currentUser rm cl
  | Some i =>
      sent r = firstn (S i) reqs /\
      client (final r)
      = exec (consoleError syncFailure)
          (stage (partsBefore currentUser rm i) currentUser rm cl)
  end /\
  seen r = map (fun j => stage (partsBefore currentUser rm j) currentUser rm cl)
               (seq 0 (List.length (sent r))) /\
  (noFaults faults ->
     firstFault (List.length reqs) faults = None /\
     In (stage 1 currentUser rm cl) (seen r) /\
     In (stage 2 currentUser rm cl) (seen r)).
Proof.
  intros r reqs. subst r reqs.
  unfold fetchData, dbService.getProfile, dbService.upsertProfile,
    dbService.getLikedSongs, dbService.getPlaylists, dbService.throw_if_error,
    syncRequests, partsBefore, hasProfile,
    stage, profileOf, likedOf, playlistsOf, newProfileOf, syncFailure.
  cbn.
  destruct (filter (fun q => String.eqb (p_id q) (u_id currentUser)) (profiles rm))
    as [|p [|q more]] eqn:Eprof; cbn;
    repeat next_request; sync_done.
Qed.

Lemma fetchData_incremental_witness :
  noFaults [] /\
  (let cl := signedIn (Some alice) [] [] in
   let r := run (fetchData alice) [] (mkWorld cl aliceRemote) in
   let reqs := syncRequests alice aliceRemote in
   outcome r = Returned tt /\
   match firstFault (List.length reqs) [] with
   | None =>
       sent r = reqs /\
       client (final r) = stage 3 alice aliceRemote cl
   | Some i =>
       sent r = firstn (S i) reqs /\
       client (final r)
       = exec (consoleError syncFailure)
           (stage (partsBefore alice aliceRemote i) alice aliceRemote cl)
   end /\
   seen r = map (fun j => stage (partsBefore alice aliceRemote j) alice aliceRemote cl)
                (seq 0 (List.length (sent r))) /\
   (noFaults [] ->
      firstFault (List.length reqs) [] = None /\
      In (stage 1 alice aliceRemote cl) (seen r) /\
      In (stage 2 alice aliceRemote cl) (seen r))).
Proof.
  split; [reflexivity|].
  exact (fetchData_incremental alice (signedIn (Some alice) [] []) aliceRemote []).
Defined.

(** * Further properties *)

(** ** Playback: a whole queue *)

(** One [ended] event, when the current track's url is first found at
    position [i] of the queue. *)
Lemma handleEnded_at (cl : Client) (cur : Song) (i : nat) :
  currentSong (app cl) = Some cur ->
  findIndex (fun s => String.eqb (url s) (url cur)) (playlistQueue (app cl)) = Z.of_nat i ->
  advance (handleEnded cl) cl
  = (if (S i <? List.length (playlistQueue (app cl)))%nat
     then exec (setCurrentSong (nth_error (playlistQueue (app cl)) (S i))) cl
     else exec (setIsPlaying false) cl, Finished).
Proof.
  intros Hc Hidx. unfold handleEnded. rewrite Hc. cbv zeta. rewrite Hidx.
  destruct (Z.eqb_spec (Z.of_nat i) (-1)) as [E|_]; [lia|]. simpl negb. simpl andb.
  destruct (Z.ltb_spec (Z.of_nat i) (Z.of_nat (List.length (playlistQueue (app cl))) - 1))
    as [Hlt|Hge];
    destruct (Nat.ltb_spec (S i) (List.length (playlistQueue (app cl)))) as [H1|H1];
    try lia; unfold do_; cbn [advance].
  - replace (Z.of_nat i + 1)%Z with (Z.of_nat (S i)) by lia.
    now rewrite at_index_nat.
  - reflexivity.
Qed.

Lemma findIndex_NoDup (Q : list Song) (i : nat) (cur : Song) :
  NoDup (map url Q) -> nth_error Q i = Some cur ->
  findIndex (fun s => String.eqb (url s) (url cur)) Q = Z.of_nat i.
Proof.
  intros Hnd Hn.
  apply findIndex_first with (x := cur); [exact Hn | apply String.eqb_refl |].
  intros j y Hj Hy. apply String.eqb_neq. intros Heq.
  assert (Hi : nth_error (map url Q) i = Some (url cur)) by now rewrite nth_error_map, Hn.
  assert (Hj2 : nth_error (map url Q) j = Some (url cur))
    by (rewrite nth_error_map, Hy; simpl; now rewrite Heq).
  assert (j = i); [|lia].
  apply (proj1 (NoDup_nth_error _) Hnd).
  - apply nth_error_Some. now rewrite Hj2.
  - now rewrite Hi, Hj2.
Qed.

Lemma handleEnded_queue (cl : Client) :
  playlistQueue (app (fst (advance (handleEnded cl) cl))) = playlistQueue (app cl).
Proof.
  unfold handleEnded. destruct (currentSong (app cl)); [|reflexivity].
  cbv zeta. destruct (_ && _); reflexivity.
Qed.

Lemma endedTimes_queue (k : nat) (cl : Client) :
  playlistQueue (app (endedTimes k cl)) = playlistQueue (app cl).
Proof.
  revert cl; induction k as [|k IH]; intros cl; [reflexivity|].
  simpl. rewrite IH. apply handleEnded_queue.
Qed.

Lemma endedTimes_S (k : nat) (cl : Client) :
  endedTimes (S k) cl
  = fst (advance (handleEnded (endedTimes k cl)) (endedTimes k cl)).
Proof.
  revert cl; induction k as [|k IH]; intros cl; [reflexivity|].
  change (endedTimes (S (S k)) cl)
    with (endedTimes (S k) (fst (advance (handleEnded cl) cl))).
  now rewrite IH.
Qed.

Lemma endedTimes_walk (k : nat) :
  forall (cl : Client) (i : nat) (cur : Song),
    NoDup (map url (playlistQueue (app cl))) ->
    currentSong (app cl) = Some cur ->
    nth_error (playlistQueue (app cl)) i = Some cur ->
    (i + k < List.length (playlistQueue (app cl)))%nat ->
    currentSong (app (endedTimes k cl)) = nth_error (playlistQueue (app cl)) (i + k) /\
    playlistQueue (app (endedTimes k cl)) = playlistQueue (app cl) /\
    isPlaying (app (endedTimes k cl)) = isPlaying (app cl).
Proof.
  induction k as [|k IH]; intros cl i cur Hnd Hc Hn Hlen.
  - simpl. rewrite Nat.add_0_r, Hc, Hn. repeat split.
  - simpl endedTimes.
    rewrite (@handleEnded_at cl cur i Hc (@findIndex_NoDup _ i cur Hnd Hn)).
    destruct (Nat.ltb_spec (S i) (List.length (playlistQueue (app cl)))) as [H1|H1]; [|lia].
    cbn [fst].
    destruct (nth_error (playlistQueue (app cl)) (S i)) as [next|] eqn:En;
      [|apply nth_error_None in En; lia].
    set (cl1 := exec (setCurrentSong (Some next)) cl).
    assert (HQ : playlistQueue (app cl1) = playlistQueue (app cl)) by reflexivity.
    destruct (IH cl1 (S i) next) as (H2 & H3 & H4); rewrite ?HQ; auto; try lia.
    rewrite H2, H3, H4, HQ. replace (S i + k)%nat with (i + S k)%nat by lia.
    repeat split.
Qed.

(** Auto-play walks the queue.  Start any track of a queue whose urls are
    pairwise distinct; then each [ended] event moves on to the next track,
    in queue order and without touching the queue, and the [ended] event of
    the last track leaves that track current and marks playback as not
    playing. *)
Theorem autoplay_walks_queue
        (cl : Client) (Q : list Song) (j k : nat) (song : Song) :
  NoDup (map url Q) ->
  nth_error Q j = Some song ->
  let cl' := endedTimes k (played song Q cl) in
  playlistQueue (app cl') = Q /\
  ((j + k < List.length Q)%nat -> currentSong (app cl') = nth_error Q (j + k)) /\
  ((j + k = List.length Q)%nat ->
     currentSong (app cl') = nth_error Q (List.length Q - 1) /\
     isPlaying (app cl') = false).
Proof.
  intros Hnd Hn cl'.
  assert (Hj : (j < List.length Q)%nat) by (apply nth_error_Some; now rewrite Hn).
  set (cl0 := played song Q cl).
  assert (HQ0 : playlistQueue (app cl0) = Q).
  { unfold cl0, played, playMusic. destruct Q; [destruct j; discriminate | reflexivity]. }
  assert (Hc0 : currentSong (app cl0) = Some song).
  { unfold cl0, played, playMusic. reflexivity. }
  destruct (Nat.lt_ge_cases (j + k) (List.length Q)) as [Hlt|Hge].
  - destruct (@endedTimes_walk k cl0 j song) as (H1 & H2 & _); rewrite ?HQ0; auto.
    subst cl'. fold cl0. rewrite H1, H2, HQ0. repeat split; intros; try lia; reflexivity.
  - subst cl'. fold cl0.
    split; [|split; [intros; lia|]].
    + now rewrite endedTimes_queue.
    + intros Hend.
      assert (Hk : exists k', k = S k' /\ (j + k' = List.length Q - 1)%nat)
        by (exists (k - 1)%nat; lia).
      destruct Hk as (k' & -> & Hk').
      destruct (@endedTimes_walk k' cl0 j song) as (H1 & H2 & _); rewrite ?HQ0; auto; try lia.
      rewrite HQ0 in H1, H2.
      rewrite endedTimes_S.
      destruct (nth_error Q (j + k')) as [last|] eqn:El;
        [|apply nth_error_None in El; lia].
      assert (Hn' : nth_error (playlistQueue (app (endedTimes k' cl0))) (j + k') = Some last)
        by now rewrite H2.
      assert (Hnd' : NoDup (map url (playlistQueue (app (endedTimes k' cl0)))))
        by now rewrite H2.
      rewrite (@handleEnded_at _ last (j + k') H1 (@findIndex_NoDup _ (j + k') last Hnd' Hn')).
      rewrite H2.
      destruct (Nat.ltb_spec (S (j + k')) (List.length Q)) as [H3|H3]; [lia|].
      cbn [fst]. unfold exec, updApp. cbn [app currentSong isPlaying].
      rewrite H1, <- Hk'. split; [now rewrite El | reflexivity].
Qed.

Lemma autoplay_walks_queue_witness :
  NoDup (map url [trackA; trackB; trackC]) /\
  nth_error [trackA; trackB; trackC] 0 = Some trackA /\
  (let Q := [trackA; trackB; trackC] in
   let cl' := endedTimes 2 (played trackA Q (withApp initialApp)) in
   playlistQueue (app cl') = Q /\
   ((0 + 2 < List.length Q)%nat -> currentSong (app cl') = nth_error Q (0 + 2)) /\
   ((0 + 2 = List.length Q)%nat ->
      currentSong (app cl') = nth_error Q (List.length Q - 1) /\
      isPlaying (app cl') = false)).
Proof.
  assert (H : NoDup (map url [trackA; trackB; trackC])).
  { simpl. repeat constructor; simpl; intuition discriminate. }
  split; [exact H|]. split; [reflexivity|].
  exact (@autoplay_walks_queue (withApp initialApp) [trackA; trackB; trackC] 0 2 trackA
           H eq_refl).
Defined.

(** ** Playback: play, pause and progress *)

(** [togglePlay] does nothing without a current track or without the audio
    element.  Otherwise it flips [isPlaying] and pauses or starts the audio
    element to match, so that afterwards the element is paused exactly when
    [isPlaying] is off; a second call flips both back. *)
Theorem togglePlay_flips_and_mirrors (cl : Client) :
  (currentSong (app cl) = None \/ audio cl = None ->
     advance (togglePlay cl) cl = (cl, Finished)) /\
  (forall (s : Song) (a : Audio),
     currentSong (app cl) = Some s -> audio cl = Some a ->
     snd (advance (togglePlay cl) cl) = Finished /\
     isPlaying (app (toggled cl)) = negb (isPlaying (app cl)) /\
     option_map a_paused (audio (toggled cl)) = Some (negb (isPlaying (app (toggled cl)))) /\
     currentSong (app (toggled cl)) = Some s /\
     playlistQueue (app (toggled cl)) = playlistQueue (app cl) /\
     isPlaying (app (toggled (toggled cl))) = isPlaying (app cl) /\
     option_map a_paused (audio (toggled (toggled cl))) = Some (negb (isPlaying (app cl)))).
Proof.
  split.
  - unfold togglePlay. intros [H|H]; rewrite H; [destruct (audio cl)|]; reflexivity.
  - intros s a Hs Ha. unfold toggled, togglePlay. rewrite Hs, Ha.
    destruct (isPlaying (app cl)) eqn:Hp;
      unfold do_; cbn [bind advance fst snd]; unfold exec, updApp, updAudio;
      cbn [app audio currentSong isPlaying playlistQueue]; rewrite Hs, Ha;
      cbn [option_map a_paused isPlaying bind advance fst snd];
      unfold exec, updApp, updAudio; cbn; repeat split.
Qed.

(** [handleTimeUpdate] copies the element's time and duration into the
    state and sets [progress] to their ratio in percent.  With a positive
    duration and a time between zero and the duration, [progress] lies
    between 0 and 100; with a zero duration the time is divided by 1
    instead, so nothing is divided by zero. *)
Theorem handleTimeUpdate_progress (cl : Client) (a : Audio) :
  audio cl = Some a ->
  currentTime (app (timeUpdated cl)) = a_currentTime a /\
  duration (app (timeUpdated cl)) = a_duration a /\
  ((0 < a_duration a)%Q ->
     (progress (app (timeUpdated cl)) == a_currentTime a / a_duration a * 100)%Q /\
     ((0 <= a_currentTime a)%Q -> (a_currentTime a <= a_duration a)%Q ->
        (0 <= progress (app (timeUpdated cl)))%Q /\
        (progress (app (timeUpdated cl)) <= 100)%Q)) /\
  ((a_duration a == 0)%Q ->
     (progress (app (timeUpdated cl)) == a_currentTime a * 100)%Q).
Proof.
  intros Ha. unfold timeUpdated, handleTimeUpdate. rewrite Ha.
  unfold do_. cbn [bind advance fst]. unfold exec, updApp.
  cbn [app currentTime duration progress].
  split; [reflexivity|]. split; [reflexivity|]. split.
  - intros Hd.
    assert (Hne : Qeq_bool (a_duration a) 0 = false).
    { destruct (Qeq_bool (a_duration a) 0) eqn:E; [|reflexivity].
      apply Qeq_bool_eq in E. rewrite E in Hd. discriminate. }
    rewrite Hne. split; [reflexivity|].
    intros H0 H1.
    assert (Hf0 : (0 <= a_currentTime a / a_duration a)%Q)
      by (apply Qle_shift_div_l; [exact Hd | lra]).
    assert (Hf1 : (a_currentTime a / a_duration a <= 1)%Q)
      by (apply Qle_shift_div_r; [exact Hd | lra]).
    split; lra.
  - intros Hz. rewrite (Qeq_eq_bool _ _ Hz). field.
Qed.

Lemma handleTimeUpdate_progress_witness :
  audio tenSeconds = Some (mkAudio 0 10 false) /\
  currentTime (app (timeUpdated tenSeconds)) = a_currentTime (mkAudio 0 10 false) /\
  duration (app (timeUpdated tenSeconds)) = a_duration (mkAudio 0 10 false) /\
  ((0 < a_duration (mkAudio 0 10 false))%Q ->
     (progress (app (timeUpdated tenSeconds))
      == a_currentTime (mkAudio 0 10 false) / a_duration (mkAudio 0 10 false) * 100)%Q /\
     ((0 <= a_currentTime (mkAudio 0 10 false))%Q ->
      (a_currentTime (mkAudio 0 10 false) <= a_duration (mkAudio 0 10 false))%Q ->
        (0 <= progress (app (timeUpdated tenSeconds)))%Q /\
        (progress (app (timeUpdated tenSeconds)) <= 100)%Q)) /\
  ((a_duration (mkAudio 0 10 false) == 0)%Q ->
     (progress (app (timeUpdated tenSeconds)) == a_currentTime (mkAudio 0 10 false) * 100)%Q).
Proof.
  split; [reflexivity|].
  exact (@handleTimeUpdate_progress tenSeconds (mkAudio 0 10 false) eq_refl).
Defined.

(** ** Search: the other outcomes *)

(** A search that goes through replaces the result set by the songs of the
    response, one entry per song and in the response's order, each with the
    same url, title and artist and with the response's [thumbnail] as its
    [cover]; a response without a [songs] field empties the result set.
    Two requests are sent, the searching flag is on while they are pending
    and off at the end, and nothing is logged. *)
Theorem performSearch_success
        (term : string) (faults : list bool) (w : World) (field : option (list Song)) :
  hd false faults = false ->
  hd false (tl faults) = false ->
  body (catalog (remote w) term) = Some (JObject field) ->
  let r := run (performSearch term) faults w in
  let results := searchResults (app (client (final r))) in
  outcome r = Returned tt /\
  sent r = [anyReq (fetch_search term); anyReq (res_json (catalog (remote w) term))] /\
  map (fun c => isSearching (app c)) (seen r) = [true; true] /\
  isSearching (app (client (final r))) = false /\
  console (client (final r)) = console (client w) /\
  (field = None -> results = []) /\
  (forall l, field = Some l ->
     results = map mapSong l /\
     map url results = map url l /\
     map title results = map title l /\
     map artist results = map artist l /\
     map cover results = map thumbnail l).
Proof.
  intros F1 F2 Hb r results. subst results r. unfold performSearch.
  cbn. rewrite F1. cbn. rewrite F2, Hb. cbn.
  destruct field as [l|]; cbn.
  - do 5 (split; [reflexivity|]). split; [discriminate|].
    intros l' [= <-]. rewrite !map_map. repeat split.
  - do 5 (split; [reflexivity|]). split; [reflexivity|].
    intros l' [=].
Qed.

Lemma performSearch_success_witness :
  hd false (@nil bool) = false /\
  hd false (tl (@nil bool)) = false /\
  body (catalog (remote (mkWorld showingA (s_remote sys0))) "abc")
  = Some (JObject (Some [trackA])) /\
  (let w := mkWorld showingA (s_remote sys0) in
   let r := run (performSearch "abc") [] w in
   let results := searchResults (app (client (final r))) in
   outcome r = Returned tt /\
   sent r = [anyReq (fetch_search "abc"); anyReq (res_json (catalog (remote w) "abc"))] /\
   map (fun c => isSearching (app c)) (seen r) = [true; true] /\
   isSearching (app (client (final r))) = false /\
   console (client (final r)) = console (client w) /\
   (Some [trackA] = None -> results = []) /\
   (forall l, Some [trackA] = Some l ->
      results = map mapSong l /\
      map url results = map url l /\
      map title results = map title l /\
      map artist results = map artist l /\
      map cover results = map thumbnail l)).
Proof.
  split; [reflexivity|]. split; [reflexivity|]. split; [reflexivity|].
  exact (@performSearch_success "abc" [] (mkWorld showingA (s_remote sys0))
           (Some [trackA]) eq_refl eq_refl eq_refl).
Defined.

(** [performSearch] always settles: whatever the network and the endpoint
    do, it returns without throwing and with the searching flag off, it
    shows no alert, and it touches neither the session, the library, the
    playback state nor the remote tables. *)
Theorem performSearch_always_settles (term : string) (faults : list bool) (w : World) :
  let r := run (performSearch term) faults w in
  let st := app (client w) in
  let st' := app (client (final r)) in
  outcome r = Returned tt /\
  isSearching st' = false /\
  alerts (client (final r)) = alerts (client w) /\
  remote (final r) = remote w /\
  user st' = user st /\ profile st' = profile st /\
  likedSongs st' = likedSongs st /\ playlists st' = playlists st /\
  currentSong st' = currentSong st /\ playlistQueue st' = playlistQueue st /\
  isPlaying st' = isPlaying st /\ searchQuery st' = searchQuery st.
Proof.
  intros r st st'. subst r st st'. unfold performSearch. cbn.
  destruct (hd false faults); [cbn; repeat split|]. cbn.
  destruct (hd false (tl faults)); [cbn; repeat split|].
  destruct (body (catalog (remote w) term)) as [[|[l|]]|]; cbn; repeat split.
Qed.

Lemma take_task_absent (n : nat) (l : list (nat * Task)) :
  ~ In n (numbers l) -> take_task n l = None.
Proof.
  induction l as [|[m t] l IH]; intros H; [reflexivity|].
  simpl. destruct (Nat.eqb_spec m n) as [->|_].
  - exfalso. apply H. now left.
  - rewrite IH; [reflexivity|]. intros Hin. apply H. now right.
Qed.

Lemma advance_afterJson (x : Settled Json) (cl : Client) :
  snd (advance (afterJson x) cl) = Finished /\
  isSearching (app (fst (advance (afterJson x) cl))) = false.
Proof. destruct x as [[|[l|]]|e]; split; reflexivity. Qed.

Lemma advance_afterFetch_rejected (e : Exn) (cl : Client) :
  snd (advance (afterFetch (Rejected e)) cl) = Finished /\
  isSearching (app (fst (advance (afterFetch (Rejected e)) cl))) = false.
Proof. split; reflexivity. Qed.

(** The searching flag belongs to no search in particular.  With two
    searches dispatched one after the other, as soon as the first one is
    over, whether it failed or was answered, the flag is off although the
    second search is still waiting for its answer. *)
Theorem searching_flag_off_while_search_pending
        (s : Sys) (term1 term2 : string) (fault1 fault2 : bool) :
  wf s ->
  2 < String.length term1 ->
  2 < String.length term2 ->
  let n1 := S (dispatched s) in
  let n2 := S n1 in
  let s2 := step (Fire (fun _ => onSearchChange term2))
              (step (Fire (fun _ => onSearchChange term1)) s) in
  let s' := step (Settle n1 fault2) (step (Settle n1 fault1) s2) in
  isSearching (app (s_client s2)) = true /\
  isSearching (app (s_client s')) = false /\
  task_of n2 (pool s') = Some (Suspended (fetch_search term2) afterFetch).
Proof.
  intros Hwf H1 H2 n1 n2.
  set (s1 := step (Fire (fun _ => onSearchChange term1)) s).
  assert (Hwf1 : wf s1) by (apply wf_step; exact Hwf).
  assert (Hd1 : dispatched s1 = n1) by reflexivity.
  assert (Ht1 : task_of n1 (pool s1) = Some (Suspended (fetch_search term1) afterFetch)).
  { unfold s1, step. rewrite advance_onSearchChange by exact H1.
    cbn [fst snd pool park]. apply task_of_app_fresh.
    intros Hin. apply (proj2 Hwf) in Hin. lia. }
  intros s2.
  assert (Hwf2 : wf s2) by (apply wf_step; exact Hwf1).
  assert (Hp2 : pool s2 = pool s1 ++ [(n2, Suspended (fetch_search term2) afterFetch)]).
  { unfold s2. fold s1. unfold step. rewrite advance_onSearchChange by exact H2.
    cbn [fst snd pool park]. now rewrite Hd1. }
  assert (Hs2 : isSearching (app (s_client s2)) = true).
  { unfold s2. fold s1. unfold step. rewrite advance_onSearchChange by exact H2.
    reflexivity. }
  assert (Ht12 : task_of n1 (pool s2) = Some (Suspended (fetch_search term1) afterFetch))
    by (rewrite Hp2; now apply task_of_app_hit).
  assert (Ht22 : task_of n2 (pool s2) = Some (Suspended (fetch_search term2) afterFetch)).
  { rewrite Hp2. apply task_of_app_fresh.
    intros Hin. apply (proj2 Hwf1) in Hin. rewrite Hd1 in Hin. unfold n2 in Hin. lia. }
  assert (Hne : forall f, settles n2 (Settle n1 f) = false).
  { intros f. simpl. apply Nat.eqb_neq. unfold n2. lia. }
  intros s'.
  set (s3 := step (Settle n1 fault1) s2) in *.
  destruct (@step_elsewhere (Settle n1 fault1) s2 n2 _ (Hne fault1) Ht22) as [Ht23 _].
  fold s3 in Ht23.
  destruct (@step_elsewhere (Settle n1 fault2) s3 n2 _ (Hne fault2) Ht23) as [Ht2' _].
  split; [exact Hs2|]. split; [|exact Ht2'].
  destruct (task_of_take _ _ Ht12) as [rest Htake].
  destruct (take_task_rest _ _ Htake) as (_ & _ & Hnd & _).
  destruct (Hnd (proj1 Hwf2)) as [_ Hfresh].
  assert (E3 := @step_settle n1 fault1 s2 _ _ _ _ Htake). fold s3 in E3.
  destruct fault1.
  - (* the fetch is rejected: the first search is over at once *)
    cbn [serve fst snd] in E3.
    destruct (advance_afterFetch_rejected FetchError (s_client s2)) as [Hfin Hoff].
    rewrite Hfin in E3. cbn [park] in E3.
    assert (Hsame : s' = s3).
    { subst s'. unfold step. rewrite E3 at 1. cbn [pool].
      now rewrite (take_task_absent _ _ Hfresh). }
    rewrite Hsame, E3. exact Hoff.
  - (* the fetch is answered: the body is read next *)
    cbn [serve fst snd] in E3. rewrite afterFetch_suspends in E3.
    cbn [advance fst snd park] in E3.
    assert (Ht13 : task_of n1 (pool s3)
                   = Some (Suspended (res_json (catalog (s_remote s2) term1)) afterJson))
      by (rewrite E3; cbn [pool]; now apply task_of_app_fresh).
    destruct (task_of_take _ _ Ht13) as [rest' Htake'].
    subst s'. rewrite (@step_settle n1 fault2 s3 _ _ _ _ Htake'). cbn [s_client].
    apply advance_afterJson.
Qed.

Lemma searching_flag_off_while_search_pending_witness :
  wf sys0 /\
  2 < String.length "abc" /\
  2 < String.length "abcd" /\
  (let n1 := S (dispatched sys0) in
   let n2 := S n1 in
   let s2 := step (Fire (fun _ => onSearchChange "abcd"))
               (step (Fire (fun _ => onSearchChange "abc")) sys0) in
   let s' := step (Settle n1 false) (step (Settle n1 false) s2) in
   isSearching (app (s_client s2)) = true /\
   isSearching (app (s_client s')) = false /\
   task_of n2 (pool s') = Some (Suspended (fetch_search "abcd") afterFetch)).
Proof.
  assert (Hwf : wf sys0) by apply wf_idle.
  assert (H1 : 2 < String.length "abc") by (simpl; lia).
  assert (H2 : 2 < String.length "abcd") by (simpl; lia).
  split; [exact Hwf|]. split; [exact H1|]. split; [exact H2|].
  exact (@searching_flag_off_while_search_pending sys0 "abc" "abcd" false false Hwf H1 H2).
Defined.

(** ** Session: the auth listener *)

(** An auth event without a verified session (signed out, or signed in
    with an email that is not confirmed) stores the user of the event and
    empties the library: no liked songs, no playlists, no profile.  Nothing
    is requested from the remote side, and playback and search are left
    alone. *)
Theorem unverified_event_clears_library
        (sessionUser : option User) (faults : list bool) (w : World) :
  sessionOf sessionUser <> AuthenticatedVerified ->
  let r := run (onAuthStateChange sessionUser) faults w in
  let st := app (client w) in
  let st' := app (client (final r)) in
  sent r = [] /\ outcome r = Returned tt /\ remote (final r) = remote w /\
  user st' = sessionUser /\
  likedSongs st' = [] /\ playlists st' = [] /\ profile st' = None /\
  currentSong st' = currentSong st /\ playlistQueue st' = playlistQueue st /\
  isPlaying st' = isPlaying st /\ searchResults st' = searchResults st.
Proof.
  intros Hs r st st'. subst r st st'. unfold onAuthStateChange, sessionOf in *.
  destruct sessionUser as [u|].
  - destruct (truthy (email_confirmed_at u)); [congruence|]. cbn. repeat split.
  - cbn. repeat split.
Qed.

Lemma unverified_event_clears_library_witness :
  sessionOf (Some bob) <> AuthenticatedVerified /\
  (let w := mkWorld (signedIn (Some alice) [trackA] [playlist7]) aliceRemote in
   let r := run (onAuthStateChange (Some bob)) [] w in
   let st := app (client w) in
   let st' := app (client (final r)) in
   sent r = [] /\ outcome r = Returned tt /\ remote (final r) = remote w /\
   user st' = Some bob /\
   likedSongs st' = [] /\ playlists st' = [] /\ profile st' = None /\
   currentSong st' = currentSong st /\ playlistQueue st' = playlistQueue st /\
   isPlaying st' = isPlaying st /\ searchResults st' = searchResults st).
Proof.
  assert (H : sessionOf (Some bob) <> AuthenticatedVerified) by (cbn; discriminate).
  split; [exact H|].
  exact (@unverified_event_clears_library (Some bob) []
           (mkWorld (signedIn (Some alice) [trackA] [playlist7]) aliceRemote) H).
Defined.

(** An auth event with a verified session, when no request fails, ends
    with the user of the event and with that user's library: the stored
    profile (or the one created on the spot), the liked songs newest first
    and the playlists with their songs.  The liked-songs and playlist
    tables are only read. *)
Theorem verified_event_loads_library
        (u : User) (faults : list bool) (w : World) :
  truthy (email_confirmed_at u) = true ->
  noFaults faults ->
  let r := run (onAuthStateChange (Some u)) faults w in
  let st' := app (client (final r)) in
  outcome r = Returned tt /\
  user st' = Some u /\
  profile st' = Some (profileOf u (remote w)) /\
  likedSongs st' = likedOf u (remote w) /\
  playlists st' = playlistsOf u (remote w) /\
  console (client (final r)) = console (client w) /\
  liked_songs (remote (final r)) = liked_songs (remote w) /\
  user_playlists (remote (final r)) = user_playlists (remote w) /\
  playlist_songs (remote (final r)) = playlist_songs (remote w).
Proof.
  intros Hv Hnf r st'. subst r st'.
  pose proof (noFaults_hd Hnf) as F1.
  pose proof (noFaults_hd (noFaults_tl Hnf)) as F2.
  pose proof (noFaults_hd (noFaults_tl (noFaults_tl Hnf))) as F3.
  pose proof (noFaults_hd (noFaults_tl (noFaults_tl (noFaults_tl Hnf)))) as F4.
  unfold onAuthStateChange. rewrite Hv.
  unfold fetchData, dbService.getProfile, dbService.upsertProfile,
    dbService.getLikedSongs, dbService.getPlaylists, dbService.throw_if_error,
    profileOf, likedOf, playlistsOf, newProfileOf.
  cbn. rewrite F1.
  destruct (filter (fun q => String.eqb (p_id q) (u_id u)) (profiles (remote w)))
    as [|p [|q more]] eqn:Eprof; cbn; rewrite ?F2; cbn; rewrite ?F3; cbn; rewrite ?F4;
    cbn; repeat split.
Qed.

Lemma verified_event_loads_library_witness :
  truthy (email_confirmed_at alice) = true /\
  noFaults [] /\
  (let w := mkWorld (signedIn None [] []) aliceRemote in
   let r := run (onAuthStateChange (Some alice)) [] w in
   let st' := app (client (final r)) in
   outcome r = Returned tt /\
   user st' = Some alice /\
   profile st' = Some (profileOf alice (remote w)) /\
   likedSongs st' = likedOf alice (remote w) /\
   playlists st' = playlistsOf alice (remote w) /\
   console (client (final r)) = console (client w) /\
   liked_songs (remote (final r)) = liked_songs (remote w) /\
   user_playlists (remote (final r)) = user_playlists (remote w) /\
   playlist_songs (remote (final r)) = playlist_songs (remote w)).
Proof.
  split; [reflexivity|]. split; [reflexivity|].
  exact (@verified_event_loads_library alice [] (mkWorld (signedIn None [] []) aliceRemote)
           eq_refl eq_refl).
Defined.

Lemma take_task_fresh (n : nat) (t : Task) (l : list (nat * Task)) :
  ~ In n (numbers l) -> take_task n (l ++ [(n, t)]) = Some (t, l).
Proof.
  induction l as [|[m u] l IH]; intros H.
  - simpl. now rewrite Nat.eqb_refl.
  - rewrite <- app_comm_cons. simpl.
    destruct (Nat.eqb_spec m n) as [->|_].
    + exfalso. apply H. now left.
    + rewrite IH; [reflexivity|]. intros Hin. apply H. now right.
Qed.

(** A sync that is still running when the user signs out is not stopped.
    The sign-out empties the library, and the answers that arrive
    afterwards fill it again: the client ends up anonymous, showing the
    profile, the liked songs and the playlists of the user who has
    left. *)
Theorem sync_in_flight_survives_sign_out (s : Sys) (u : User) (p : Profile) :
  wf s ->
  truthy (email_confirmed_at u) = true ->
  filter (fun q => String.eqb (p_id q) (u_id u)) (profiles (s_remote s)) = [p] ->
  let n := S (dispatched s) in
  let signedOut :=
    steps [Fire (fun _ => onAuthStateChange (Some u));
           Fire (fun _ => onAuthStateChange None)] s in
  let s' := steps [Settle n false; Settle n false; Settle n false] signedOut in
  (user (app (s_client signedOut)) = None /\
   profile (app (s_client signedOut)) = None /\
   likedSongs (app (s_client signedOut)) = [] /\
   playlists (app (s_client signedOut)) = []) /\
  sessionOf (user (app (s_client s'))) = Anonymous /\
  profile (app (s_client s')) = Some p /\
  likedSongs (app (s_client s')) = likedOf u (s_remote s) /\
  playlists (app (s_client s')) = playlistsOf u (s_remote s).
Proof.
  intros Hwf Hv Hp n signedOut s'.
  assert (Hfresh : ~ In (S (dispatched s)) (numbers (pool s))).
  { intros Hin. apply (proj2 Hwf) in Hin. lia. }
  subst s' signedOut n. unfold steps. cbn [fold_left]. unfold step.
  unfold onAuthStateChange. rewrite Hv.
  unfold fetchData, dbService.getProfile, dbService.getLikedSongs,
    dbService.getPlaylists, dbService.throw_if_error, likedOf, playlistsOf.
  cbn.
  split; [repeat split|].
  rewrite (@take_task_fresh (S (dispatched s)) _ (pool s) Hfresh).
  cbn. rewrite Hp. cbn.
  rewrite (@take_task_fresh (S (dispatched s)) _ (pool s) Hfresh).
  cbn.
  rewrite (@take_task_fresh (S (dispatched s)) _ (pool s) Hfresh).
  cbn. repeat split.
Qed.

Lemma sync_in_flight_survives_sign_out_witness :
  wf idleAlice /\
  truthy (email_confirmed_at alice) = true /\
  filter (fun q => String.eqb (p_id q) (u_id alice)) (profiles (s_remote idleAlice))
  = [aliceProfile] /\
  (let n := S (dispatched idleAlice) in
   let signedOut :=
     steps [Fire (fun _ => onAuthStateChange (Some alice));
            Fire (fun _ => onAuthStateChange None)] idleAlice in
   let s' := steps [Settle n false; Settle n false; Settle n false] signedOut in
   (user (app (s_client signedOut)) = None /\
    profile (app (s_client signedOut)) = None /\
    likedSongs (app (s_client signedOut)) = [] /\
    playlists (app (s_client signedOut)) = []) /\
   sessionOf (user (app (s_client s'))) = Anonymous /\
   profile (app (s_client s')) = Some aliceProfile /\
   likedSongs (app (s_client s')) = likedOf alice (s_remote idleAlice) /\
   playlists (app (s_client s')) = playlistsOf alice (s_remote idleAlice)).
Proof.
  assert (Hwf : wf idleAlice) by apply wf_idle.
  split; [exact Hwf|]. split; [reflexivity|]. split; [reflexivity|].
  exact (@sync_in_flight_survives_sign_out idleAlice alice aliceProfile Hwf eq_refl eq_refl).
Defined.

(** ** Library: liking, the other cases *)

(** [toggleLike] does not report remote failures.  For a verified user
    and whatever fails, it sends its two requests, returns without throwing
    and shows or logs nothing, and the local list is changed all the same:
    the track is put in front or filtered out.  A lookup that fails counts
    as "not liked", so the track is inserted and put in front; a write that
    fails leaves the remote table as it was. *)
Theorem toggleLike_ignores_remote_failures
        (song : Song) (cl : Client) (u : User) (rm : Remote) (faults : list bool) :
  user (app cl) = Some u ->
  truthy (email_confirmed_at u) = true ->
  let r := run (toggleLike song cl) faults (mkWorld cl rm) in
  let L := likedSongs (app cl) in
  let L' := likedSongs (app (client (final r))) in
  outcome r = Returned tt /\
  List.length (sent r) = 2 /\
  alerts (client (final r)) = alerts cl /\
  console (client (final r)) = console cl /\
  (L' = song :: L \/ L' = withoutUrl song L) /\
  (hd false faults = true ->
     L' = song :: L /\
     sent r = [anyReq (liked_songs_select_single (u_id u) (url song));
               anyReq (liked_songs_insert (u_id u) song)]) /\
  (hd false (tl faults) = true -> remote (final r) = rm).
Proof.
  intros Hu Hv r L L'. subst r L L'. unfold toggleLike. rewrite Hu, Hv. cbn.
  destruct (hd false faults); cbn.
  - destruct (hd false (tl faults)); cbn; repeat split; auto; try discriminate.
  - destruct (map lr_id (liked_matching (u_id u) (url song) (liked_songs rm)))
      as [|rowId [|rowId' more]]; cbn;
      destruct (hd false (tl faults)); cbn; repeat split; auto; try discriminate.
    all: destruct rm; reflexivity.
Qed.

Lemma toggleLike_ignores_remote_failures_witness :
  user (app (signedIn (Some alice) [trackB] [])) = Some alice /\
  truthy (email_confirmed_at alice) = true /\
  (let cl := signedIn (Some alice) [trackB] [] in
   let rm := likedRemote [mkLikedRow 1 "u1" trackB] 2 in
   let faults := [true; true] in
   let r := run (toggleLike trackB cl) faults (mkWorld cl rm) in
   let L := likedSongs (app cl) in
   let L' := likedSongs (app (client (final r))) in
   outcome r = Returned tt /\
   List.length (sent r) = 2 /\
   alerts (client (final r)) = alerts cl /\
   console (client (final r)) = console cl /\
   (L' = trackB :: L \/ L' = withoutUrl trackB L) /\
   (hd false faults = true ->
      L' = trackB :: L /\
      sent r = [anyReq (liked_songs_select_single (u_id alice) (url trackB));
                anyReq (liked_songs_insert (u_id alice) trackB)]) /\
   (hd false (tl faults) = true -> remote (final r) = rm)).
Proof.
  split; [reflexivity|]. split; [reflexivity|].
  exact (@toggleLike_ignores_remote_failures trackB (signedIn (Some alice) [trackB] [])
           alice (likedRemote [mkLikedRow 1 "u1" trackB] 2) [true; true] eq_refl eq_refl).
Defined.

(** Liking touches the liked songs only.  In every session state and
    whatever fails, [toggleLike] leaves the user, the profile, the
    playlists, the open playlist, the search and the playback state as
    they are, and on the remote side it leaves the profile and playlist
    tables alone. *)
Theorem toggleLike_touches_liked_songs_only
        (song : Song) (cl : Client) (rm : Remote) (faults : list bool) :
  let r := run (toggleLike song cl) faults (mkWorld cl rm) in
  let st := app cl in
  let st' := app (client (final r)) in
  user st' = user st /\ profile st' = profile st /\ playlists st' = playlists st /\
  currentPlaylistDetail st' = currentPlaylistDetail st /\
  searchQuery st' = searchQuery st /\ searchResults st' = searchResults st /\
  currentSong st' = currentSong st /\ playlistQueue st' = playlistQueue st /\
  isPlaying st' = isPlaying st /\ audio (client (final r)) = audio cl /\
  profiles (remote (final r)) = profiles rm /\
  user_playlists (remote (final r)) = user_playlists rm /\
  playlist_songs (remote (final r)) = playlist_songs rm.
Proof.
  intros r st st'. subst r st st'. unfold toggleLike.
  destruct (user (app cl)) as [u|] eqn:Hu; [|cbn; repeat split; auto].
  destruct (truthy (email_confirmed_at u)); [|cbn; repeat split; auto].
  cbn. destruct (hd false faults); cbn.
  - destruct (hd false (tl faults)); cbn; repeat split; auto.
  - destruct (map lr_id (liked_matching (u_id u) (url song) (liked_songs rm)))
      as [|rowId [|rowId' more]]; cbn;
      destruct (hd false (tl faults)); cbn; repeat split; auto.
Qed.

(** ** Library: the list and the table *)

Lemma insert_desc_In (r x : LikedRow) (l : list LikedRow) :
  In x (insert_desc r l) <-> x = r \/ In x l.
Proof.
  induction l as [|y l IH]; simpl.
  - intuition.
  - destruct (Nat.leb (lr_id y) (lr_id r)); simpl; [intuition|].
    rewrite IH. intuition.
Qed.

Lemma order_id_desc_In (x : LikedRow) (l : list LikedRow) :
  In x (order_id_desc l) <-> In x l.
Proof.
  unfold order_id_desc. induction l as [|y l IH]; simpl; [reflexivity|].
  rewrite insert_desc_In, IH. intuition.
Qed.

Lemma insert_desc_sorted (r : LikedRow) (l : list LikedRow) :
  sortedDesc l -> sortedDesc (insert_desc r l).
Proof.
  induction l as [|y l IH]; simpl; intros H.
  - split; [intros ? []|exact I].
  - destruct H as [Hy Hl]. destruct (Nat.leb_spec (lr_id y) (lr_id r)) as [Hle|Hgt].
    + split; [|split; assumption].
      intros z [<-|Hz]; [exact Hle|]. apply Hy in Hz. lia.
    + split; [|apply IH; exact Hl].
      intros z Hz. apply insert_desc_In in Hz. destruct Hz as [->|Hz]; [lia|auto].
Qed.

Lemma order_id_desc_sorted (l : list LikedRow) : sortedDesc (order_id_desc l).
Proof.
  unfold order_id_desc. induction l as [|y l IH]; simpl; [exact I|].
  now apply insert_desc_sorted.
Qed.

Lemma insert_desc_top (r : LikedRow) (l : list LikedRow) :
  (forall y, In y l -> lr_id y <= lr_id r) -> insert_desc r l = r :: l.
Proof.
  destruct l as [|y l]; simpl; [reflexivity|]. intros H.
  destruct (Nat.leb_spec (lr_id y) (lr_id r)) as [_|Hgt]; [reflexivity|].
  specialize (H y (or_introl eq_refl)). lia.
Qed.

Lemma filter_insert_desc_drop (g : LikedRow -> bool) (r : LikedRow) (l : list LikedRow) :
  g r = false -> filter g (insert_desc r l) = filter g l.
Proof.
  intros Hr. induction l as [|y l IH]; simpl; [now rewrite Hr|].
  destruct (Nat.leb (lr_id y) (lr_id r)); simpl; [now rewrite Hr|].
  now rewrite IH.
Qed.

Lemma insert_desc_filter (g : LikedRow -> bool) (r : LikedRow) (l : list LikedRow) :
  sortedDesc l -> g r = true ->
  insert_desc r (filter g l) = filter g (insert_desc r l).
Proof.
  intros Hs Hr. induction l as [|y l IH]; simpl; [now rewrite Hr|].
  destruct Hs as [Hy Hl].
  destruct (Nat.leb_spec (lr_id y) (lr_id r)) as [Hle|Hgt]; simpl; rewrite ?Hr.
  - destruct (g y); simpl.
    + destruct (Nat.leb_spec (lr_id y) (lr_id r)); [reflexivity|lia].
    + apply insert_desc_top. intros z Hz. apply filter_In in Hz.
      destruct Hz as [Hz _]. apply Hy in Hz. lia.
  - destruct (g y); simpl.
    + destruct (Nat.leb_spec (lr_id y) (lr_id r)); [lia|]. now rewrite IH.
    + now apply IH.
Qed.

(** Ordering by id and selecting rows can be done in either order. *)
Lemma order_id_desc_filter (g : LikedRow -> bool) (l : list LikedRow) :
  order_id_desc (filter g l) = filter g (order_id_desc l).
Proof.
  induction l as [|y l IH]; [reflexivity|].
  change (order_id_desc (y :: l)) with (insert_desc y (order_id_desc l)).
  simpl filter. destruct (g y) eqn:Gy.
  - change (order_id_desc (y :: filter g l))
      with (insert_desc y (order_id_desc (filter g l))).
    rewrite IH. apply insert_desc_filter; [apply order_id_desc_sorted | exact Gy].
  - rewrite IH. symmetry. now apply filter_insert_desc_drop.
Qed.

(** A row whose id is above all others comes first. *)
Lemma order_id_desc_newest (r : LikedRow) (l : list LikedRow) :
  (forall y, In y l -> lr_id y < lr_id r) ->
  order_id_desc (l ++ [r]) = r :: order_id_desc l.
Proof.
  unfold order_id_desc. induction l as [|y l IH]; intros H; [reflexivity|].
  simpl. rewrite IH by (intros z Hz; apply H; now right). simpl.
  destruct (Nat.leb_spec (lr_id r) (lr_id y)) as [Hle|_]; [|reflexivity].
  specialize (H y (or_introl eq_refl)). lia.
Qed.

Lemma NoDup_map_filter {A B} (f : A -> B) (g : A -> bool) (l : list A) :
  NoDup (map f l) -> NoDup (map f (filter g l)).
Proof.
  induction l as [|x l IH]; simpl; intros H; [constructor|].
  inversion H as [|? ? Hx Hl]; subst. destruct (g x); simpl; [|auto].
  constructor; [|auto]. intros Hin. apply Hx.
  apply in_map_iff in Hin. destruct Hin as (y & Hy & Hin).
  apply filter_In in Hin. apply in_map_iff. exists y. tauto.
Qed.

Lemma NoDup_map_inj {A B} (f : A -> B) (l : list A) (x y : A) :
  NoDup (map f l) -> In x l -> In y l -> f x = f y -> x = y.
Proof.
  induction l as [|a l IH]; simpl; intros H Hx Hy E; [contradiction|].
  inversion H as [|? ? Ha Hl]; subst.
  destruct Hx as [->|Hx], Hy as [->|Hy]; auto.
  - exfalso. apply Ha. rewrite E. now apply in_map.
  - exfalso. apply Ha. rewrite <- E. now apply in_map.
Qed.

Lemma likedOf_rows (u : User) (rm : Remote) :
  likedOf u rm
  = map lr_song_data
      (order_id_desc (filter (fun r => String.eqb (lr_user_id r) (u_id u)) (liked_songs rm))).
Proof. reflexivity. Qed.

Lemma withoutUrl_rows (song : Song) (rows : list LikedRow) :
  withoutUrl song (map lr_song_data rows)
  = map lr_song_data
      (filter (fun r => negb (String.eqb (url (lr_song_data r)) (url song))) rows).
Proof.
  unfold withoutUrl. induction rows as [|r rows IH]; simpl; [reflexivity|].
  destruct (String.eqb (url (lr_song_data r)) (url song)); simpl; now rewrite IH.
Qed.

Lemma filter_length_le {A} (g : A -> bool) (l : list A) :
  List.length (filter g l) <= List.length l.
Proof. induction l as [|x l IH]; simpl; [lia|]. destruct (g x); simpl; lia. Qed.

(** [toggleLike] keeps the list in step with the table.  When the liked
    songs shown are what a sync would return (with distinct row ids and at
    most one row per url) and both remote calls go through, the same holds
    again after [toggleLike]: the list on screen is exactly what the next
    sync will fetch, whether the track was added or removed. *)
Theorem toggleLike_keeps_list_in_sync
        (song : Song) (cl : Client) (u : User) (rm : Remote) (faults : list bool) :
  user (app cl) = Some u ->
  truthy (email_confirmed_at u) = true ->
  hd false faults = false ->
  hd false (tl faults) = false ->
  likedInSync u cl rm ->
  let r := run (toggleLike song cl) faults (mkWorld cl rm) in
  likedInSync u (client (final r)) (remote (final r)).
Proof.
  intros Hu Hv F1 F2 (Hlist & Hnd & Hlt & Hcount) r. subst r.
  rewrite (@toggleLike_run song cl cl u rm faults Hu Hv F1 F2).
  pose proof (Hcount (url song)) as Hone.
  destruct (liked_matching (u_id u) (url song) (liked_songs rm))
    as [|r0 [|r1 more]] eqn:Erows; [| |simpl in Hone; lia]; simpl map.
  - (* a row is inserted *)
    unfold likedInSync.
    cbn [final client remote serve snd exec updApp app likedSongs liked_songs next_id].
    split; [|split; [|split]].
    + rewrite Hlist, !likedOf_rows. cbn [liked_songs].
      rewrite filter_app. cbn [filter lr_user_id]. rewrite String.eqb_refl.
      rewrite order_id_desc_newest; [reflexivity|].
      intros y Hy. apply filter_In in Hy. simpl. apply Hlt. tauto.
    + rewrite map_app. apply NoDup_app; [exact Hnd | repeat constructor; auto |].
      intros a Ha [<-|[]]. apply in_map_iff in Ha. destruct Ha as (y & Hy & Hin).
      apply Hlt in Hin. simpl in Hy. lia.
    + intros y Hy. apply in_app_iff in Hy. destruct Hy as [Hy|[<-|[]]].
      * apply Hlt in Hy. lia.
      * simpl. lia.
    + intros x. rewrite liked_matching_app, length_app.
      unfold liked_matching at 2. cbn [filter lr_user_id lr_song_data].
      rewrite String.eqb_refl. cbn [andb].
      destruct (String.eqb_spec (url song) x) as [<-|_]; simpl.
      * rewrite Erows. simpl. lia.
      * specialize (Hcount x). lia.
  - (* the row is deleted *)
    assert (Hr0 : In r0 (liked_songs rm) /\ url (lr_song_data r0) = url song).
    { assert (H : In r0 (liked_matching (u_id u) (url song) (liked_songs rm)))
        by (rewrite Erows; now left).
      apply filter_In in H. destruct H as [H1 H2].
      apply andb_prop in H2. destruct H2 as [_ H2]. apply String.eqb_eq in H2. tauto. }
    unfold likedInSync.
    cbn [final client remote serve snd exec updApp app likedSongs liked_songs next_id].
    split; [|split; [|split]].
    + rewrite Hlist, !likedOf_rows. cbn [liked_songs].
      rewrite withoutUrl_rows.
      rewrite (filter_filter_swap (fun r => String.eqb (lr_user_id r) (u_id u))
                 (fun r => negb (Nat.eqb (lr_id r) (lr_id r0))) (liked_songs rm)).
      rewrite (order_id_desc_filter (fun r => negb (Nat.eqb (lr_id r) (lr_id r0)))
                 (filter (fun r => String.eqb (lr_user_id r) (u_id u)) (liked_songs rm))).
      f_equal. apply filter_ext_in. intros x Hx.
      apply (proj1 (order_id_desc_In _ _)) in Hx.
      apply filter_In in Hx. destruct Hx as [HxT Hxu].
      destruct (String.eqb_spec (url (lr_song_data x)) (url song)) as [E|E];
        destruct (Nat.eqb_spec (lr_id x) (lr_id r0)) as [E'|E']; try reflexivity.
      * exfalso. apply E'.
        assert (H : In x (liked_matching (u_id u) (url song) (liked_songs rm))).
        { apply filter_In. split; [exact HxT|]. rewrite Hxu. simpl.
          now apply String.eqb_eq. }
        rewrite Erows in H. destruct H as [<-|[]]. reflexivity.
      * exfalso. apply E.
        rewrite (@NoDup_map_inj _ _ lr_id (liked_songs rm) x r0 Hnd HxT (proj1 Hr0) E').
        exact (proj2 Hr0).
    + now apply NoDup_map_filter.
    + intros y Hy. apply filter_In in Hy. apply Hlt. tauto.
    + intros x. rewrite liked_matching_filter.
      pose proof (filter_length_le (fun r => negb (Nat.eqb (lr_id r) (lr_id r0)))
                    (liked_matching (u_id u) x (liked_songs rm))).
      specialize (Hcount x). lia.
Qed.

Lemma toggleLike_keeps_list_in_sync_witness :
  user (app (signedIn (Some alice) [trackA; trackB] [])) = Some alice /\
  truthy (email_confirmed_at alice) = true /\
  hd false (@nil bool) = false /\
  hd false (tl (@nil bool)) = false /\
  likedInSync alice (signedIn (Some alice) [trackA; trackB] []) remoteOfAB /\
  (let cl := signedIn (Some alice) [trackA; trackB] [] in
   let r := run (toggleLike trackB cl) [] (mkWorld cl remoteOfAB) in
   likedInSync alice (client (final r)) (remote (final r))).
Proof.
  assert (H : likedInSync alice (signedIn (Some alice) [trackA; trackB] []) remoteOfAB).
  { split; [reflexivity|]. split; [|split].
    - simpl. repeat constructor; simpl; intuition discriminate.
    - intros r [<-|[<-|[]]]; simpl; lia.
    - intros x. unfold liked_matching, remoteOfAB, likedRemote, trackA, trackB, alice.
      cbn [liked_songs filter lr_user_id lr_song_data url u_id].
      rewrite !String.eqb_refl. cbn [andb].
      destruct (String.eqb_spec "u/b" x) as [E1|_];
        destruct (String.eqb_spec "u/a" x) as [E2|_];
        try (rewrite <- E1 in E2; discriminate E2);
        cbn [List.length]; lia. }
  split; [reflexivity|]. split; [reflexivity|]. split; [reflexivity|].
  split; [reflexivity|]. split; [exact H|].
  exact (@toggleLike_keeps_list_in_sync trackB (signedIn (Some alice) [trackA; trackB] [])
           alice remoteOfAB [] eq_refl eq_refl eq_refl eq_refl H).
Defined.

(** ** Library: playlists *)

Lemma filter_map_swap {A B} (f : A -> B) (g : B -> bool) (h : A -> bool) (l : list A) :
  (forall x, g (f x) = h x) -> filter g (map f l) = map f (filter h l).
Proof.
  intros E. induction l as [|x l IH]; simpl; [reflexivity|].
  rewrite E. destruct (h x); simpl; now rewrite IH.
Qed.

(** Creating a playlist, when the insert goes through: one request is
    sent, and a playlist with the name typed in, the standard cover, the
    id handed out by the remote side and no songs is added at the end of
    the list.  If the list was what a sync would return, and no song row
    refers to the new id, it is so again afterwards. *)
Theorem createNewPlaylist_success
        (nm : string) (cl : Client) (u : User) (rm : Remote) (faults : list bool) :
  user (app cl) = Some u ->
  truthy (email_confirmed_at u) = true ->
  nm <> "" ->
  hd false faults = false ->
  let r := run (createNewPlaylist (Some nm) cl) faults (mkWorld cl rm) in
  let created := mkPlaylist (IdNum (next_id rm)) nm newPlaylistImage [] in
  outcome r = Returned tt /\
  sent r = [anyReq (user_playlists_insert (u_id u) nm newPlaylistImage)] /\
  playlists (app (client (final r))) = playlists (app cl) ++ [created] /\
  likedSongs (app (client (final r))) = likedSongs (app cl) /\
  alerts (client (final r)) = alerts cl /\ console (client (final r)) = console cl /\
  user_playlists (remote (final r))
  = user_playlists rm ++ [mkPlaylistRow (next_id rm) (u_id u) nm (Some newPlaylistImage)] /\
  (playlists (app cl) = playlistsOf u rm ->
   (forall s, In s (playlist_songs rm) -> ps_playlist_id s <> next_id rm) ->
   playlists (app (client (final r))) = playlistsOf u (remote (final r))).
Proof.
  intros Hu Hv Hnm F1 r created. subst r created.
  unfold createNewPlaylist. rewrite Hu, Hv.
  assert (Ht : truthy (Some nm) = true).
  { simpl. destruct (String.eqb_spec nm ""); [contradiction|reflexivity]. }
  rewrite Ht. cbn [negb].
  assert (Ho : or_else (Some nm) "" = nm).
  { simpl. destruct (String.eqb_spec nm ""); [contradiction|reflexivity]. }
  rewrite Ho. unfold dbService.createPlaylist, dbService.throw_if_error.
  cbn. rewrite F1. cbn.
  do 7 (split; [reflexivity|]).
  intros Hsync Hfresh. rewrite Hsync. unfold playlistsOf. cbn.
  rewrite filter_app, !map_app. f_equal. cbn. rewrite String.eqb_refl. cbn.
  assert (Hnone : filter (fun s => Nat.eqb (ps_playlist_id s) (next_id rm))
                    (playlist_songs rm) = []).
  { induction (playlist_songs rm) as [|s l IH]; [reflexivity|]. simpl.
    destruct (Nat.eqb_spec (ps_playlist_id s) (next_id rm)) as [E|_].
    - exfalso. apply (Hfresh s); [now left | exact E].
    - apply IH. intros s' Hs'. apply Hfresh. now right. }
  now rewrite Hnone.
Qed.

(** Creating a playlist, when it does not happen.  If the prompt is
    cancelled or left empty nothing is sent and nothing changes.  If the
    insert fails the list of playlists and the remote tables stay as they
    are, the failure is logged and the user is told, and the handler
    returns without throwing. *)
Theorem createNewPlaylist_cancelled_or_failed
        (answer : option string) (cl : Client) (u : User) (rm : Remote)
        (faults : list bool) :
  user (app cl) = Some u ->
  truthy (email_confirmed_at u) = true ->
  let r := run (createNewPlaylist answer cl) faults (mkWorld cl rm) in
  (truthy answer = false ->
     sent r = [] /\ outcome r = Returned tt /\ final r = mkWorld cl rm) /\
  (truthy answer = true -> hd false faults = true ->
     outcome r = Returned tt /\
     remote (final r) = rm /\
     app (client (final r)) = app cl /\
     alerts (client (final r)) = alerts cl ++ ["Failed to create playlist"] /\
     console (client (final r)) = console cl ++ ["Failed to create playlist"]).
Proof.
  intros Hu Hv r. subst r. unfold createNewPlaylist. rewrite Hu, Hv. cbn [negb].
  split.
  - intros Ht. rewrite Ht. cbn. repeat split.
  - intros Ht F1. rewrite Ht.
    unfold dbService.createPlaylist, dbService.throw_if_error.
    cbn. rewrite F1. cbn. repeat split.
Qed.

Lemma createNewPlaylist_success_witness :
  user (app (signedIn (Some alice) [] [])) = Some alice /\
  truthy (email_confirmed_at alice) = true /\
  "Mix" <> "" /\
  hd false (@nil bool) = false /\
  (let cl := signedIn (Some alice) [] [] in
   let rm := emptyRemote in
   let r := run (createNewPlaylist (Some "Mix") cl) [] (mkWorld cl rm) in
   let created := mkPlaylist (IdNum (next_id rm)) "Mix" newPlaylistImage [] in
   outcome r = Returned tt /\
   sent r = [anyReq (user_playlists_insert (u_id alice) "Mix" newPlaylistImage)] /\
   playlists (app (client (final r))) = playlists (app cl) ++ [created] /\
   likedSongs (app (client (final r))) = likedSongs (app cl) /\
   alerts (client (final r)) = alerts cl /\ console (client (final r)) = console cl /\
   user_playlists (remote (final r))
   = user_playlists rm
     ++ [mkPlaylistRow (next_id rm) (u_id alice) "Mix" (Some newPlaylistImage)] /\
   (playlists (app cl) = playlistsOf alice rm ->
    (forall s, In s (playlist_songs rm) -> ps_playlist_id s <> next_id rm) ->
    playlists (app (client (final r))) = playlistsOf alice (remote (final r)))).
Proof.
  assert (H : "Mix" <> "") by discriminate.
  split; [reflexivity|]. split; [reflexivity|]. split; [exact H|]. split; [reflexivity|].
  exact (@createNewPlaylist_success "Mix" (signedIn (Some alice) [] []) alice emptyRemote []
           eq_refl eq_refl H eq_refl).
Defined.

Lemma createNewPlaylist_cancelled_or_failed_witness :
  user (app (signedIn (Some alice) [] [playlist7])) = Some alice /\
  truthy (email_confirmed_at alice) = true /\
  (let cl := signedIn (Some alice) [] [playlist7] in
   let rm := remoteWithPlaylist7 in
   let faults := [true] in
   let r := run (createNewPlaylist (Some "Mix") cl) faults (mkWorld cl rm) in
   (truthy (Some "Mix") = false ->
      sent r = [] /\ outcome r = Returned tt /\ final r = mkWorld cl rm) /\
   (truthy (Some "Mix") = true -> hd false faults = true ->
      outcome r = Returned tt /\
      remote (final r) = rm /\
      app (client (final r)) = app cl /\
      alerts (client (final r)) = alerts cl ++ ["Failed to create playlist"] /\
      console (client (final r)) = console cl ++ ["Failed to create playlist"])).
Proof.
  split; [reflexivity|]. split; [reflexivity|].
  exact (@createNewPlaylist_cancelled_or_failed (Some "Mix")
           (signedIn (Some alice) [] [playlist7]) alice remoteWithPlaylist7 [true]
           eq_refl eq_refl).
Defined.

(** Deleting a playlist is not optimistic.  Declining the confirmation
    does nothing.  When the remote delete fails the handler throws and the
    local list is untouched.  When it goes through, the row is gone from
    the table and every local playlist with that id is dropped; a list
    that was what a sync would return is so again afterwards. *)
Theorem deletePlaylistClick_after_remote
        (pl : Playlist) (n : nat) (cl : Client) (u : User) (rm : Remote)
        (faults : list bool) :
  id pl = IdNum n ->
  let w := mkWorld cl rm in
  let r := run (deletePlaylistClick true pl) faults w in
  run (deletePlaylistClick false pl) faults w = mkRun w (Returned tt) [] [] /\
  sent r = [anyReq (user_playlists_delete (IdNum n))] /\
  seen r = [cl] /\
  (hd false faults = true ->
     (exists e, outcome r = Thrown e) /\ final r = w) /\
  (hd false faults = false ->
     outcome r = Returned tt /\
     user_playlists (remote (final r))
     = filter (fun row => negb (Nat.eqb (pr_id row) n)) (user_playlists rm) /\
     playlists (app (client (final r)))
     = filter (fun p => negb (Ident_eqb (id p) (IdNum n))) (playlists (app cl)) /\
     likedSongs (app (client (final r))) = likedSongs (app cl) /\
     (playlists (app cl) = playlistsOf u rm ->
      playlists (app (client (final r))) = playlistsOf u (remote (final r)))).
Proof.
  intros Hid w r. subst w r.
  unfold deletePlaylistClick, dbService.deletePlaylist, dbService.throw_if_error.
  rewrite Hid. cbn.
  destruct (hd false faults); cbn.
  - do 3 (split; [reflexivity|]).
    split; [|discriminate]. intros _. split; [eexists; reflexivity | reflexivity].
  - do 3 (split; [reflexivity|]).
    split; [discriminate|]. intros _.
    do 4 (split; [reflexivity|]).
    intros Hsync. rewrite Hsync. unfold playlistsOf. cbn.
    rewrite (filter_filter_swap (fun r => String.eqb (pr_user_id r) (u_id u))
               (fun r => negb (Nat.eqb (pr_id r) n)) (user_playlists rm)).
    rewrite <- (filter_map_swap (join_playlist rm)
                  (fun j => negb (Nat.eqb (pj_id j) n))
                  (fun r => negb (Nat.eqb (pr_id r) n))) by reflexivity.
    rewrite <- (filter_map_swap
                  (fun pl0 => mkPlaylist (IdNum (pj_id pl0)) (pj_name pl0)
                                (or_else (pj_image pl0) dbService.default_image)
                                (pj_songs pl0))
                  (fun p => negb (Ident_eqb (id p) (IdNum n)))
                  (fun j => negb (Nat.eqb (pj_id j) n))) by reflexivity.
    reflexivity.
Qed.

Lemma deletePlaylistClick_after_remote_witness :
  id playlist7 = IdNum 7 /\
  (let cl := signedIn (Some alice) [] [playlist7] in
   let rm := remoteWithPlaylist7 in
   let faults := @nil bool in
   let w := mkWorld cl rm in
   let r := run (deletePlaylistClick true playlist7) faults w in
   run (deletePlaylistClick false playlist7) faults w = mkRun w (Returned tt) [] [] /\
   sent r = [anyReq (user_playlists_delete (IdNum 7))] /\
   seen r = [cl] /\
   (hd false faults = true ->
      (exists e, outcome r = Thrown e) /\ final r = w) /\
   (hd false faults = false ->
      outcome r = Returned tt /\
      user_playlists (remote (final r))
      = filter (fun row => negb (Nat.eqb (pr_id row) 7)) (user_playlists rm) /\
      playlists (app (client (final r)))
      = filter (fun p => negb (Ident_eqb (id p) (IdNum 7))) (playlists (app cl)) /\
      likedSongs (app (client (final r))) = likedSongs (app cl) /\
      (playlists (app cl) = playlistsOf alice rm ->
       playlists (app (client (final r))) = playlistsOf alice (remote (final r))))).
Proof.
  split; [reflexivity|].
  exact (@deletePlaylistClick_after_remote playlist7 7 (signedIn (Some alice) [] [playlist7])
           alice remoteWithPlaylist7 [] eq_refl).
Defined.

(** [dbService.addSongToPlaylist] appends and never deduplicates.  When
    the insert goes through, a later read of the user's playlists shows
    the song at the end of the playlist it was added to, even if the song
    is already in it, and shows every other playlist unchanged; the liked
    songs and the playlist rows are not touched.  When the insert fails
    the function throws and the tables stay as they are. *)
Theorem addSongToPlaylist_appends
        (n : nat) (song : Song) (u : User) (w : World) (faults : list bool) :
  let r := run (dbService.addSongToPlaylist (IdNum n) song) faults w in
  client (final r) = client w /\
  (hd false faults = true -> (exists e, outcome r = Thrown e) /\ final r = w) /\
  (hd false faults = false ->
     outcome r = Returned tt /\
     liked_songs (remote (final r)) = liked_songs (remote w) /\
     user_playlists (remote (final r)) = user_playlists (remote w) /\
     playlistsOf u (remote (final r))
     = map (fun pl => if Ident_eqb (id pl) (IdNum n) then withSong song pl else pl)
         (playlistsOf u (remote w))).
Proof.
  intros r. subst r.
  unfold dbService.addSongToPlaylist, dbService.throw_if_error. cbn.
  destruct (hd false faults); cbn.
  - split; [reflexivity|]. split; [|discriminate].
    intros _. split; [eexists; reflexivity | now destruct w].
  - split; [reflexivity|]. split; [discriminate|]. intros _.
    do 3 (split; [reflexivity|]).
    unfold playlistsOf. cbn. rewrite !map_map. apply map_ext. intros row.
    unfold join_playlist, withSong. cbn. rewrite filter_app, map_app. cbn.
    rewrite (Nat.eqb_sym n (pr_id row)).
    destruct (Nat.eqb (pr_id row) n); cbn; [reflexivity|].
    now rewrite app_nil_r.
Qed.

(** ** Library: the profile *)

Lemma filter_nil_existsb {A} (f : A -> bool) (l : list A) :
  filter f l = [] -> existsb f l = false.
Proof.
  induction l as [|x l IH]; simpl; [reflexivity|].
  destruct (f x); [discriminate|]. exact IH.
Qed.

Lemma upsert_profile_new (p : Profile) (l : list Profile) :
  filter (fun q => String.eqb (p_id q) (p_id p)) l = [] ->
  upsert_profile p l = l ++ [p].
Proof. intros H. unfold upsert_profile. now rewrite (filter_nil_existsb _ _ H). Qed.

(** The first sync of a user without a profile row creates the row, and
    the next sync finds it: after the first run the profile shown is the
    freshly built one and it is stored remotely; a second run sends no
    upsert, leaves the remote side as it is and ends in the same state. *)
Theorem fetchData_creates_profile_once
        (u : User) (cl : Client) (rm : Remote) (faults faults' : list bool) :
  filter (fun q => String.eqb (p_id q) (u_id u)) (profiles rm) = [] ->
  noFaults faults -> noFaults faults' ->
  let r1 := run (fetchData u) faults (mkWorld cl rm) in
  let r2 := run (fetchData u) faults' (final r1) in
  profile (app (client (final r1))) = Some (newProfileOf u) /\
  profiles (remote (final r1)) = profiles rm ++ [newProfileOf u] /\
  sent r1 = [anyReq (profiles_select_single (u_id u));
             anyReq (profiles_upsert (newProfileOf u));
             anyReq (liked_songs_select (u_id u));
             anyReq (user_playlists_select (u_id u))] /\
  sent r2 = [anyReq (profiles_select_single (u_id u));
             anyReq (liked_songs_select (u_id u));
             anyReq (user_playlists_select (u_id u))] /\
  final r2 = final r1.
Proof.
  intros Hnone Hnf Hnf' r1 r2.
  pose proof (noFaults_hd Hnf) as F1.
  pose proof (noFaults_hd (noFaults_tl Hnf)) as F2.
  pose proof (noFaults_hd (noFaults_tl (noFaults_tl Hnf))) as F3.
  pose proof (noFaults_hd (noFaults_tl (noFaults_tl (noFaults_tl Hnf)))) as F4.
  pose proof (noFaults_hd Hnf') as G1.
  pose proof (noFaults_hd (noFaults_tl Hnf')) as G2.
  pose proof (noFaults_hd (noFaults_tl (noFaults_tl Hnf'))) as G3.
  assert (E1 : r1 = mkRun
                 (mkWorld (stage 3 u rm cl)
                    (mkRemote (profiles rm ++ [newProfileOf u]) (liked_songs rm)
                       (user_playlists rm) (playlist_songs rm) (next_id rm) (catalog rm)))
                 (Returned tt)
                 [cl; cl; stage 1 u rm cl; stage 2 u rm cl]
                 [anyReq (profiles_select_single (u_id u));
                  anyReq (profiles_upsert (newProfileOf u));
                  anyReq (liked_songs_select (u_id u));
                  anyReq (user_playlists_select (u_id u))]).
  { subst r1.
    unfold fetchData, dbService.getProfile, dbService.upsertProfile,
      dbService.getLikedSongs, dbService.getPlaylists, dbService.throw_if_error,
      stage, profileOf, likedOf, playlistsOf.
    cbn -[upsert_profile newProfileOf]. rewrite F1, Hnone.
    cbn -[upsert_profile newProfileOf]. rewrite F2.
    cbn -[upsert_profile newProfileOf]. rewrite F3.
    cbn -[upsert_profile newProfileOf]. rewrite F4.
    cbn -[upsert_profile newProfileOf].
    rewrite upsert_profile_new by exact Hnone.
    reflexivity. }
  assert (Hfound : filter (fun q => String.eqb (p_id q) (u_id u))
                     (profiles rm ++ [newProfileOf u]) = [newProfileOf u]).
  { rewrite filter_app, Hnone. cbn. now rewrite String.eqb_refl. }
  subst r2. rewrite E1. cbn [final sent client remote app profile profiles].
  split; [unfold stage, profileOf; cbn; now rewrite Hnone|].
  split; [reflexivity|]. split; [reflexivity|].
  unfold fetchData, dbService.getProfile, dbService.upsertProfile,
    dbService.getLikedSongs, dbService.getPlaylists, dbService.throw_if_error,
    stage, profileOf, likedOf, playlistsOf.
  cbn. rewrite G1, Hfound, Hnone. cbn. rewrite G2. cbn. rewrite G3. cbn.
  split; reflexivity.
Qed.

Lemma fetchData_creates_profile_once_witness :
  filter (fun q => String.eqb (p_id q) (u_id alice)) (profiles emptyRemote) = [] /\
  noFaults [] /\ noFaults [] /\
  (let cl := signedIn (Some alice) [] [] in
   let r1 := run (fetchData alice) [] (mkWorld cl emptyRemote) in
   let r2 := run (fetchData alice) [] (final r1) in
   profile (app (client (final r1))) = Some (newProfileOf alice) /\
   profiles (remote (final r1)) = profiles emptyRemote ++ [newProfileOf alice] /\
   sent r1 = [anyReq (profiles_select_single (u_id alice));
              anyReq (profiles_upsert (newProfileOf alice));
              anyReq (liked_songs_select (u_id alice));
              anyReq (user_playlists_select (u_id alice))] /\
   sent r2 = [anyReq (profiles_select_single (u_id alice));
              anyReq (liked_songs_select (u_id alice));
              anyReq (user_playlists_select (u_id alice))] /\
   final r2 = final r1).
Proof.
  split; [reflexivity|]. split; [reflexivity|]. split; [reflexivity|].
  exact (@fetchData_creates_profile_once alice (signedIn (Some alice) [] []) emptyRemote
           [] [] eq_refl eq_refl eq_refl).
Defined.

Lemma before_at_prefix (s : string) :
  exists rest, s = (before_at s ++ rest)%string /\
               (rest = "" \/ exists t, rest = String "@"%char t).
Proof.
  induction s as [|c s IH]; simpl.
  - exists "". split; [reflexivity | now left].
  - destruct (Ascii.eqb_spec c "@"%char) as [->|_].
    + exists (String "@"%char s). split; [reflexivity | right; now exists s].
    + destruct IH as (rest & E & Hr). exists rest. split; [|exact Hr].
      simpl. now rewrite <- E.
Qed.

Lemma before_at_no_at (s : string) :
  ~ In "@"%char (list_ascii_of_string (before_at s)).
Proof.
  induction s as [|c s IH]; simpl; [tauto|].
  destruct (Ascii.eqb_spec c "@"%char) as [->|Hc]; simpl; [tauto|].
  intros [E|H]; [congruence | contradiction].
Qed.

(** The username of a profile created by the sync is never empty and
    never contains an "@": it is the part of the email in front of the
    first "@", and it is "User" when there is no email or when that part
    is empty. *)
Theorem new_profile_username (u : User) :
  let nm := username (newProfileOf u) in
  nm <> "" /\
  (email u = None -> nm = "User") /\
  (forall e, email u = Some e ->
     (before_at e = "" -> nm = "User") /\
     (before_at e <> "" ->
        nm = before_at e /\
        exists rest, e = (nm ++ rest)%string /\ (rest = "" \/ exists t, rest = String "@"%char t))) /\
  ~ In "@"%char (list_ascii_of_string nm).
Proof.
  intros nm. subst nm. unfold newProfileOf. cbn [username].
  destruct (email u) as [e|]; cbn [option_map or_else].
  - destruct (String.eqb_spec (before_at e) "") as [E|E].
    + split; [discriminate|]. split; [discriminate|]. split.
      * intros e' [= <-]. split; [reflexivity | contradiction].
      * simpl. intuition discriminate.
    + split; [exact E|]. split; [discriminate|]. split.
      * intros e' [= <-]. split; [contradiction|].
        intros _. split; [reflexivity | apply before_at_prefix].
      * apply before_at_no_at.
  - split; [discriminate|]. split; [reflexivity|]. split; [discriminate|].
    simpl. intuition discriminate.
Qed.

(** [getLikedSongs] returns the songs of exactly the rows of the user
    asked for, each row once, the row with the greatest id first; when the
    read fails it throws.  It changes nothing on either side. *)
Theorem getLikedSongs_newest_first (userId : string) (faults : list bool) (w : World) :
  let r := run (dbService.getLikedSongs userId) faults w in
  final r = w /\
  (hd false faults = true -> exists e, outcome r = Thrown e) /\
  (hd false faults = false ->
     exists rows,
       outcome r = Returned (map lr_song_data rows) /\
       sortedDesc rows /\
       (forall x, In x rows <-> In x (liked_songs (remote w)) /\ lr_user_id x = userId) /\
       List.length rows
       = List.length (filter (fun x => String.eqb (lr_user_id x) userId)
                        (liked_songs (remote w)))).
Proof.
  intros r. subst r. unfold dbService.getLikedSongs, dbService.throw_if_error.
  cbn -[order_id_desc]. destruct (hd false faults); cbn -[order_id_desc].
  - split; [now destruct w|]. split; [|discriminate]. intros _. eexists; reflexivity.
  - split; [now destruct w|]. split; [discriminate|]. intros _.
    eexists. split; [reflexivity|]. split; [apply order_id_desc_sorted|]. split.
    + intros x. rewrite order_id_desc_In, filter_In, String.eqb_eq. reflexivity.
    + generalize (filter (fun x => String.eqb (lr_user_id x) userId)
                    (liked_songs (remote w))).
      intros l. unfold order_id_desc. induction l as [|y l IH]; [reflexivity|].
      simpl. rewrite <- IH. clear IH.
      generalize (fold_right insert_desc [] l). intros s.
      induction s as [|z s IHs]; [reflexivity|]. simpl.
      destruct (Nat.leb (lr_id z) (lr_id y)); simpl; [reflexivity|]. now rewrite IHs.
Qed.

(** ** The sign-in dialog *)

Lemma ticks_rate (k : nat) (st : AuthModal.State) :
  (0 <= AuthModal.rateLimitSeconds st)%Z ->
  AuthModal.rateLimitSeconds (AuthModal.ticks k st)
  = Z.max 0 (AuthModal.rateLimitSeconds st - Z.of_nat k) /\
  AuthModal.isSignUp (AuthModal.ticks k st) = AuthModal.isSignUp st /\
  AuthModal.email (AuthModal.ticks k st) = AuthModal.email st /\
  AuthModal.password (AuthModal.ticks k st) = AuthModal.password st /\
  AuthModal.loading (AuthModal.ticks k st) = AuthModal.loading st.
Proof.
  revert st; induction k as [|k IH]; intros st H.
  - simpl. repeat split. lia.
  - cbn [AuthModal.ticks]. unfold AuthModal.tick.
    destruct (Z.ltb_spec 0 (AuthModal.rateLimitSeconds st)) as [Hpos|Hz].
    + destruct (IH (AuthModal.setRateLimitSeconds (fun prev => (prev - 1)%Z) st))
        as (H1 & H2 & H3 & H4 & H5); [simpl; lia|].
      rewrite H1, H2, H3, H4, H5. simpl. repeat split. lia.
    + destruct (IH st H) as (H1 & H2 & H3 & H4 & H5).
      rewrite H1, H2, H3, H4, H5. repeat split. lia.
Qed.

(** Sign-up is rate limited for thirty ticks of the countdown.  After a
    sign-up that the provider accepted, the counter stands at 30 and goes
    down by one per tick, never below zero.  For the first thirty ticks a
    further sign-up attempt sends nothing and the submit button is
    disabled; from the thirtieth tick on the sign-up request is sent
    again. *)
Theorem signUp_rate_limited
        (st : AuthModal.State) (hasUser hasSession : bool) (k : nat) :
  AuthModal.isSignUp st = true ->
  (AuthModal.rateLimitSeconds st <= 0)%Z ->
  let req := AuthModal.signUp (AuthModal.email st) (AuthModal.password st) in
  let accepted :=
    fst (AuthModal.handleAuth_resume req (AuthModal.answerData hasUser hasSession)
           (fst (AuthModal.handleAuth_start st))) in
  let later := AuthModal.ticks k accepted in
  snd (AuthModal.handleAuth_start st) = Some req /\
  AuthModal.rateLimitSeconds accepted = 30%Z /\
  AuthModal.rateLimitSeconds later = Z.max 0 (30 - Z.of_nat k) /\
  (k < 30 ->
     snd (AuthModal.handleAuth_start later) = None /\
     AuthModal.submitDisabled later = true) /\
  (30 <= k ->
     snd (AuthModal.handleAuth_start later) = Some req /\
     AuthModal.submitDisabled later = false).
Proof.
  intros Hs Hr req accepted later.
  assert (Hstart : AuthModal.handleAuth_start st
                   = (AuthModal.setLoading true (AuthModal.setErrorMsg "" st), Some req)).
  { unfold AuthModal.handleAuth_start. rewrite Hs.
    destruct (Z.ltb_spec 0 (AuthModal.rateLimitSeconds st)); [lia|reflexivity]. }
  assert (Hacc : AuthModal.rateLimitSeconds accepted = 30%Z /\
                 AuthModal.isSignUp accepted = true /\
                 AuthModal.email accepted = AuthModal.email st /\
                 AuthModal.password accepted = AuthModal.password st /\
                 AuthModal.loading accepted = false).
  { subst accepted. rewrite Hstart. cbn. rewrite Hs. repeat split. }
  destruct Hacc as (A1 & A2 & A3 & A4 & A5).
  destruct (@ticks_rate k accepted) as (T1 & T2 & T3 & T4 & T5); [lia|].
  fold later in T1, T2, T3, T4, T5. rewrite A1 in T1.
  split; [now rewrite Hstart|]. split; [exact A1|]. split; [exact T1|].
  unfold AuthModal.handleAuth_start, AuthModal.submitDisabled.
  rewrite T1, T2, T3, T4, T5, A2, A3, A4, A5.
  split; intros Hk.
  - destruct (Z.ltb_spec 0 (Z.max 0 (30 - Z.of_nat k))); [|lia]. split; reflexivity.
  - destruct (Z.ltb_spec 0 (Z.max 0 (30 - Z.of_nat k))); [lia|]. split; reflexivity.
Qed.

Lemma signUp_rate_limited_witness :
  AuthModal.isSignUp (AuthModal.mkState "a@b.com" "x" false true "" 0) = true /\
  (AuthModal.rateLimitSeconds (AuthModal.mkState "a@b.com" "x" false true "" 0) <= 0)%Z /\
  (let st := AuthModal.mkState "a@b.com" "x" false true "" 0 in
   let k := 12 in
   let req := AuthModal.signUp (AuthModal.email st) (AuthModal.password st) in
   let accepted :=
     fst (AuthModal.handleAuth_resume req (AuthModal.answerData true false)
            (fst (AuthModal.handleAuth_start st))) in
   let later := AuthModal.ticks k accepted in
   snd (AuthModal.handleAuth_start st) = Some req /\
   AuthModal.rateLimitSeconds accepted = 30%Z /\
   AuthModal.rateLimitSeconds later = Z.max 0 (30 - Z.of_nat k) /\
   (k < 30 ->
      snd (AuthModal.handleAuth_start later) = None /\
      AuthModal.submitDisabled later = true) /\
   (30 <= k ->
      snd (AuthModal.handleAuth_start later) = Some req /\
      AuthModal.submitDisabled later = false)).
Proof.
  assert (H : (AuthModal.rateLimitSeconds
                 (AuthModal.mkState "a@b.com" "x" false true "" 0) <= 0)%Z)
    by (simpl; lia).
  split; [reflexivity|]. split; [exact H|].
  exact (@signUp_rate_limited (AuthModal.mkState "a@b.com" "x" false true "" 0)
           true false 12 eq_refl H).
Defined.

(** [handleAuth] always comes back.  Whatever the provider answers, the
    loading flag is off afterwards.  An error shows the provider's message,
    keeps the dialog open and does not start the rate limit; an accepted
    sign-in closes the dialog; an accepted sign-up closes it when a user
    came back, and tells the user to check the inbox when there is no
    session yet.  Logging in is never rate limited. *)
Theorem handleAuth_settles
        (st st' : AuthModal.State) (req : AuthModal.Request) (a : AuthModal.Answer) :
  let done := AuthModal.handleAuth_resume req a st' in
  AuthModal.errorMsg (fst (AuthModal.handleAuth_start st)) = "" /\
  (AuthModal.isSignUp st = false ->
     snd (AuthModal.handleAuth_start st)
     = Some (AuthModal.signInWithPassword (AuthModal.email st) (AuthModal.password st))) /\
  AuthModal.loading (fst done) = false /\
  (forall m, a = AuthModal.answerError m ->
     AuthModal.errorMsg (fst done) = m /\
     AuthModal.closed (snd done) = false /\
     AuthModal.alerted (snd done) = [] /\
     AuthModal.rateLimitSeconds (fst done) = AuthModal.rateLimitSeconds st') /\
  (forall hasUser hasSession, a = AuthModal.answerData hasUser hasSession ->
     AuthModal.errorMsg (fst done) = AuthModal.errorMsg st' /\
     match req with
     | AuthModal.signInWithPassword _ _ =>
         AuthModal.closed (snd done) = true /\ AuthModal.alerted (snd done) = [] /\
         AuthModal.rateLimitSeconds (fst done) = AuthModal.rateLimitSeconds st'
     | AuthModal.signUp _ _ =>
         AuthModal.closed (snd done) = hasUser /\
         AuthModal.alerted (snd done)
         = (if hasUser && negb hasSession then [AuthModal.registered] else []) /\
         AuthModal.rateLimitSeconds (fst done) = 30%Z
     end).
Proof.
  intros done. subst done. split.
  - unfold AuthModal.handleAuth_start.
    destruct (AuthModal.isSignUp st); [destruct (0 <? _)%Z|]; reflexivity.
  - split.
    + intros H. unfold AuthModal.handleAuth_start. now rewrite H.
    + split; [destruct req, a; reflexivity|]. split.
      * intros m ->. destruct req; repeat split.
      * intros hasUser hasSession ->.
        destruct req; [destruct hasUser, hasSession|]; repeat split.
Qed.

(** ** Formatters *)

Lemma Qfloor_unique (z : Z) (x : Q) :
  (inject_Z z <= x)%Q -> (x < inject_Z (z + 1))%Q -> Qfloor x = z.
Proof.
  intros H1 H2.
  pose proof (Qfloor_le x) as F1. pose proof (Qlt_floor x) as F2.
  assert (A : (Qfloor x < z + 1)%Z)
    by (rewrite Zlt_Qlt; eapply Qle_lt_trans; eassumption).
  assert (B : (z < Qfloor x + 1)%Z)
    by (rewrite Zlt_Qlt; eapply Qle_lt_trans; eassumption).
  lia.
Qed.

Lemma Qdiv_60 (s : Q) : (s / 60 == s * (1 # 60))%Q.
Proof. field. Qed.

Lemma Qfloor_div_60 (s : Q) : Qfloor (s / 60) = (Qfloor s / 60)%Z.
Proof.
  apply Qfloor_unique.
  - pose proof (Qfloor_le s) as F1.
    pose proof (Z.mul_div_le (Qfloor s) 60 ltac:(lia)) as H.
    rewrite Zle_Qle, inject_Z_mult in H. rewrite Qdiv_60.
    change (inject_Z 60) with 60%Q in H. lra.
  - pose proof (Qlt_floor s) as F2.
    pose proof (Z.mul_succ_div_gt (Qfloor s) 60 ltac:(lia)) as H.
    assert (H' : (Qfloor s + 1 <= 60 * (Qfloor s / 60 + 1))%Z) by lia.
    rewrite Zle_Qle, inject_Z_mult in H'. rewrite Qdiv_60.
    change (inject_Z 60) with 60%Q in H'. lra.
Qed.

Lemma Qfloor_jsRem_60 (s : Q) :
  (0 <= s)%Q -> Qfloor (jsRem s 60) = (Qfloor s mod 60)%Z.
Proof.
  intros Hs. unfold jsRem, Qtrunc.
  assert (Hq : Qle_bool 0 (s / 60) = true).
  { apply Qle_bool_iff. rewrite Qdiv_60. lra. }
  rewrite Hq, Qfloor_div_60.
  pose proof (Z.mod_eq (Qfloor s) 60 ltac:(lia)) as Hm.
  apply Qfloor_unique.
  - pose proof (Qfloor_le s) as F1.
    assert (H : (Qfloor s mod 60 + 60 * (Qfloor s / 60) <= Qfloor s)%Z) by lia.
    rewrite Zle_Qle, !inject_Z_plus, inject_Z_mult in H.
    change (inject_Z 60) with 60%Q in H. lra.
  - pose proof (Qlt_floor s) as F2.
    assert (H : (Qfloor s + 1 <= (Qfloor s mod 60 + 1) + 60 * (Qfloor s / 60))%Z) by lia.
    rewrite Zle_Qle, !inject_Z_plus, inject_Z_mult in H.
    rewrite inject_Z_plus in F2. rewrite inject_Z_plus.
    change (inject_Z 60) with 60%Q in H. change (inject_Z 1) with 1%Q in *. lra.
Qed.

Lemma twoDigits_length (n : nat) :
  n < 60 -> String.length (twoDigits (Z.of_nat n)) = 2.
Proof.
  do 60 (destruct n as [|n]; [reflexivity|]). lia.
Qed.



(** ** [dbService]: reads *)

(** [getProfile] tells "no profile" apart from "could not read".  With
    exactly one row for the user it returns that row; with no row it
    returns nothing and does not throw, so that the caller can create the
    profile; when the read fails in transit it throws.  It never changes
    anything. *)
Theorem getProfile_missing_is_not_an_error
        (userId : string) (faults : list bool) (w : World) :
  let r := run (dbService.getProfile userId) faults w in
  let rows := filter (fun q => String.eqb (p_id q) userId) (profiles (remote w)) in
  final r = w /\
  (hd false faults = true -> exists e, outcome r = Thrown e) /\
  (hd false faults = false ->
     (rows = [] -> outcome r = Returned None) /\
     (forall p, rows = [p] -> outcome r = Returned (Some p) /\ p_id p = userId)).
Proof.
  intros r rows. subst r. unfold dbService.getProfile. cbn.
  destruct (hd false faults); cbn.
  - split; [now destruct w|]. split; [|discriminate]. intros _. eexists; reflexivity.
  - fold rows. assert (Hin : forall p, In p rows -> p_id p = userId).
    { intros p Hp. apply filter_In in Hp. now apply String.eqb_eq. }
    destruct rows as [|p [|q more]]; cbn.
    + split; [now destruct w|]. split; [discriminate|]. intros _.
      split; [reflexivity | discriminate].
    + split; [now destruct w|]. split; [discriminate|]. intros _.
      split; [discriminate|]. intros p' [= <-].
      split; [reflexivity | apply Hin; now left].
    + split; [now destruct w|]. split; [discriminate|]. intros _.
      split; discriminate.
Qed.

(** [getPlaylists] returns the playlists of the user asked for, in table
    order, each with a numeric id and with a cover that is never empty (a
    row without an image gets the standard one), and throws when the read
    fails. *)
Theorem getPlaylists_always_have_a_cover
        (userId : string) (faults : list bool) (w : World) :
  let r := run (dbService.getPlaylists userId) faults w in
  let rows := filter (fun row => String.eqb (pr_user_id row) userId)
                (user_playlists (remote w)) in
  final r = w /\
  (hd false faults = true -> exists e, outcome r = Thrown e) /\
  (hd false faults = false ->
     exists pls,
       outcome r = Returned pls /\
       map id pls = map (fun row => IdNum (pr_id row)) rows /\
       map name pls = map pr_name rows /\
       (forall p, In p pls -> image p <> "")).
Proof.
  intros r rows. subst r. unfold dbService.getPlaylists, dbService.throw_if_error. cbn.
  destruct (hd false faults); cbn.
  - split; [now destruct w|]. split; [|discriminate]. intros _. eexists; reflexivity.
  - fold rows. split; [now destruct w|]. split; [discriminate|]. intros _.
    eexists. split; [reflexivity|]. rewrite !map_map. cbn.
    split; [reflexivity|]. split; [reflexivity|].
    intros p Hp. apply in_map_iff in Hp. destruct Hp as (j & <- & _).
    cbn. unfold or_else. destruct (pr_image j) as [i|]; [|discriminate].
    destruct (String.eqb_spec i ""); [discriminate | assumption].
Qed.

(** ** Library: what a list in step with the table looks like *)

Lemma order_id_desc_length (l : list LikedRow) :
  List.length (order_id_desc l) = List.length l.
Proof.
  unfold order_id_desc. induction l as [|y l IH]; [reflexivity|].
  simpl. rewrite <- IH. clear IH.
  generalize (fold_right insert_desc [] l). intros s.
  induction s as [|z s IHs]; [reflexivity|]. simpl.
  destruct (Nat.leb (lr_id z) (lr_id y)); simpl; [reflexivity|]. now rewrite IHs.
Qed.

Lemma filter_both {A} (f g : A -> bool) (l : list A) :
  filter g (filter f l) = filter (fun x => f x && g x) l.
Proof.
  induction l as [|x l IH]; simpl; [reflexivity|].
  destruct (f x); simpl; [destruct (g x); simpl; now rewrite IH | exact IH].
Qed.

Lemma NoDup_keys_of_counts {A} (key : A -> string) (l : list A) :
  (forall x, List.length (filter (fun r => String.eqb (key r) x) l) <= 1) ->
  NoDup (map key l).
Proof.
  induction l as [|a l IH]; intros H; simpl; [constructor|].
  constructor.
  - intros Hin. apply in_map_iff in Hin. destruct Hin as (b & Hb & Hbl).
    specialize (H (key a)). simpl in H. rewrite String.eqb_refl in H. simpl in H.
    assert (Hb' : In b (filter (fun r => String.eqb (key r) (key a)) l))
      by (apply filter_In; split; [exact Hbl | now apply String.eqb_eq]).
    destruct (filter (fun r => String.eqb (key r) (key a)) l); [contradiction|].
    simpl in H. lia.
  - apply IH. intros x. specialize (H x). simpl in H.
    destruct (String.eqb (key a) x); simpl in H; lia.
Qed.

(** A list in step with the table shows no track twice, and it shows a
    track as liked exactly when the table holds a row for it. *)
Theorem likedInSync_list_is_faithful (u : User) (cl : Client) (rm : Remote) (song : Song) :
  likedInSync u cl rm ->
  NoDup (map url (likedSongs (app cl))) /\
  List.length (likedSongs (app cl))
  = List.length (filter (fun r => String.eqb (lr_user_id r) (u_id u)) (liked_songs rm)) /\
  isLiked (app cl) song
  = negb (Nat.eqb (List.length (liked_matching (u_id u) (url song) (liked_songs rm))) 0).
Proof.
  intros (Hlist & _ & _ & Hcount).
  set (U := filter (fun r => String.eqb (lr_user_id r) (u_id u)) (liked_songs rm)).
  assert (Hm : forall x,
             filter (fun r => String.eqb (url (lr_song_data r)) x) (order_id_desc U)
             = order_id_desc (liked_matching (u_id u) x (liked_songs rm))).
  { intros x. rewrite <- order_id_desc_filter. unfold U. now rewrite filter_both. }
  unfold isLiked. rewrite Hlist, likedOf_rows. fold U.
  split; [|split].
  - rewrite map_map.
    apply (NoDup_keys_of_counts (fun r => url (lr_song_data r))).
    intros x. rewrite Hm, order_id_desc_length. apply Hcount.
  - now rewrite length_map, order_id_desc_length.
  - specialize (Hm (url song)).
    assert (E : existsb (fun s => String.eqb (url s) (url song))
                  (map lr_song_data (order_id_desc U))
                = negb (Nat.eqb (List.length
                     (filter (fun r => String.eqb (url (lr_song_data r)) (url song))
                        (order_id_desc U))) 0)).
    { generalize (order_id_desc U). intros l.
      induction l as [|r l IH]; [reflexivity|]. simpl.
      destruct (String.eqb (url (lr_song_data r)) (url song)); simpl; [reflexivity|exact IH]. }
    rewrite E, Hm, order_id_desc_length. reflexivity.
Qed.

Lemma likedInSync_list_is_faithful_witness :
  likedInSync alice (signedIn (Some alice) [trackA; trackB] []) remoteOfAB /\
  (let cl := signedIn (Some alice) [trackA; trackB] [] in
   NoDup (map url (likedSongs (app cl))) /\
   List.length (likedSongs (app cl))
   = List.length (filter (fun r => String.eqb (lr_user_id r) (u_id alice))
                    (liked_songs remoteOfAB)) /\
   isLiked (app cl) trackC
   = negb (Nat.eqb (List.length (liked_matching (u_id alice) (url trackC)
                                   (liked_songs remoteOfAB))) 0)).
Proof.
  assert (H : likedInSync alice (signedIn (Some alice) [trackA; trackB] []) remoteOfAB).
  { split; [reflexivity|]. split; [|split].
    - simpl. repeat constructor; simpl; intuition discriminate.
    - intros r [<-|[<-|[]]]; simpl; lia.
    - intros x. unfold liked_matching, remoteOfAB, likedRemote, trackA, trackB, alice.
      cbn [liked_songs filter lr_user_id lr_song_data url u_id].
      rewrite !String.eqb_refl. cbn [andb].
      destruct (String.eqb_spec "u/b" x) as [E1|_];
        destruct (String.eqb_spec "u/a" x) as [E2|_];
        try (rewrite <- E1 in E2; discriminate E2);
        cbn [List.length]; lia. }
  split; [exact H|].
  exact (@likedInSync_list_is_faithful alice (signedIn (Some alice) [trackA; trackB] [])
           remoteOfAB trackC H).
Defined.

(** ** Playback: a single search result *)

(** A track started on its own, as a search result is, forms a queue of
    one: the queue is that track alone, and when it ends playback is marked
    as not playing with the track still current. *)
Theorem lone_track_plays_once (song : Song) (cl : Client) :
  let cl1 := played song [] cl in
  playlistQueue (app cl1) = [song] /\
  currentSong (app cl1) = Some song /\
  isPlaying (app (endedTimes 1 cl1)) = false /\
  currentSong (app (endedTimes 1 cl1)) = Some song /\
  playlistQueue (app (endedTimes 1 cl1)) = [song].
Proof.
  intros cl1. subst cl1. unfold played, playMusic. cbn [endedTimes].
  unfold do_. cbn [bind advance fst]. unfold handleEnded, exec, updApp.
  cbn [app currentSong playlistQueue]. unfold findIndex. cbn [findIndex_from].
  rewrite String.eqb_refl. cbn. repeat split.
Qed.
